(** * exam_grading_system.py: a shallow embedding of its deterministic core

    The Python module wires four LLM agents together; the code it runs
    itself is small: [extract_pdf_text], [extract_json_from_text], the three
    [process_*] tools, [calculate_grade], [save_results_to_file] and the
    pre-flight part of [run_grading_system].  Each of them is embedded below
    as a Rocq function over explicit models of what it touches:

    - Python [str] is a list of Unicode code points ([str := list N]);
    - a raised exception is the [Raise] constructor of [outcome];
    - the [json] standard module is modelled by [json_loads] and [encode]
      ([json_dumps] is [encode] without indentation); a float is kept as the
      literal that denotes it, its binary value is outside the model;
    - [os.path], the file system, PyPDF2 and the ADK runner are explicit
      worlds passed as arguments; printing is not modelled. *)

From Stdlib Require Import String Ascii.
From Stdlib Require Import List NArith ZArith QArith Qround Bool Lia.
Import ListNotations.
Close Scope Q_scope.

(** ** Python values the code manipulates *)

Notation char := N (only parsing).
Notation str := (list N) (only parsing).

(** [py "abc"] is the Python literal ['abc'] (ASCII only). *)
Definition py (s : string) : str := map N_of_ascii (list_ascii_of_string s).

Definition char_eqb (a b : char) : bool := N.eqb a b.

Fixpoint str_eqb (a b : str) : bool :=
  match a, b with
  | [], [] => true
  | x :: a', y :: b' => char_eqb x y && str_eqb a' b'
  | _, _ => false
  end.

Inductive exn :=
| ValueError (msg : str)
| JSONDecodeError
| IndexError
| OSError (msg : str)
| PdfReadError (msg : str).

Inductive outcome (A : Type) :=
| Return (a : A)
| Raise (e : exn).
Arguments Return {A} a.
Arguments Raise {A} e.

(** ** calculate_grade *)

(** A Python float (or int) as the comparison operators see it: a finite
    value is the rational it denotes exactly. *)
Inductive pyfloat :=
| Finite (q : Q)
| PosInf
| NegInf
| NaN.

(** [x >= k] for an integer literal [k]; every comparison with NaN is
    false. *)
Definition float_ge (x : pyfloat) (k : Z) : bool :=
  match x with
  | Finite q => Qle_bool (inject_Z k) q
  | PosInf => true
  | NegInf => false
  | NaN => false
  end.

Definition calculate_grade (percentage : pyfloat) : str :=
  if float_ge percentage 90 then py "A+"
  else if float_ge percentage 80 then py "A"
  else if float_ge percentage 70 then py "B"
  else if float_ge percentage 60 then py "C"
  else if float_ge percentage 50 then py "D"
  else py "F".

(** ** The [str] methods the code calls *)

Definition len (s : str) : Z := Z.of_nat (length s).

(** [s.startswith(prefix)] *)
Fixpoint startswith (s prefix : str) {struct prefix} : bool :=
  match prefix, s with
  | [], _ => true
  | p :: prefix', c :: s' => char_eqb p c && startswith s' prefix'
  | _ :: _, [] => false
  end.

(** [sub in s] *)
Fixpoint contains (sub s : str) : bool :=
  startswith s sub ||
  match s with
  | [] => false
  | _ :: s' => contains sub s'
  end.

(** [s.find(sub)]: the lowest index at which [sub] occurs, or -1. *)
Fixpoint find_from (sub s : str) (i : Z) : Z :=
  if startswith s sub then i
  else match s with
       | [] => -1
       | _ :: s' => find_from sub s' (i + 1)
       end.

Definition find (sub s : str) : Z := find_from sub s 0.

(** [s.rfind(sub)]: the highest index at which [sub] occurs, or -1. *)
Fixpoint rfind_from (sub s : str) (i : Z) : Z :=
  match s with
  | [] => if startswith s sub then i else -1
  | _ :: s' =>
      let r := rfind_from sub s' (i + 1) in
      if r =? -1 then (if startswith s sub then i else -1) else r
  end%Z.

Definition rfind (sub s : str) : Z := rfind_from sub s 0.

(** [s.split(sep)] for a non-empty [sep] (the code only passes the two
    fence literals): a left-to-right scan for non-overlapping occurrences.
    [skip] counts the characters of a matched separator still to be passed
    over; [cur] is the current piece, reversed. *)
Fixpoint split_go (sep : str) (skip : nat) (cur s : str) : list str :=
  match s with
  | [] => [rev cur]
  | c :: s' =>
      match skip with
      | S k => split_go sep k cur s'
      | O =>
          if startswith s sep
          then rev cur :: split_go sep (length sep - 1) [] s'
          else split_go sep 0 (c :: cur) s'
      end
  end.

Definition split (sep s : str) : list str := split_go sep 0 [] s.

(** [c.isspace()]: the code points Python treats as whitespace. *)
Definition isspace (c : char) : bool :=
  (((9 <=? c) && (c <=? 13)) || ((28 <=? c) && (c <=? 32)) ||
   (c =? 133) || (c =? 160) || (c =? 5760) ||
   ((8192 <=? c) && (c <=? 8202)) || (c =? 8232) || (c =? 8233) ||
   (c =? 8239) || (c =? 8287) || (c =? 12288))%N.

Fixpoint lstrip (s : str) : str :=
  match s with
  | c :: s' => if isspace c then lstrip s' else s
  | [] => []
  end.

Definition rstrip (s : str) : str := rev (lstrip (rev s)).

(** [s.strip()] *)
Definition strip (s : str) : str := rstrip (lstrip s).

(** [s[a:b]] with Python's treatment of negative and out-of-range
    bounds. *)
Definition slice_bound (n i : Z) : Z :=
  (if i <? 0 then Z.max 0 (i + n) else Z.min i n)%Z.

Definition slice (s : str) (a b : Z) : str :=
  let a' := slice_bound (len s) a in
  let b' := slice_bound (len s) b in
  firstn (Z.to_nat (b' - a')) (skipn (Z.to_nat a') s).

(** [l[i]] for a non-negative constant [i]. *)
Definition getitem {A : Type} (l : list A) (i : nat) : outcome A :=
  match nth_error l i with
  | Some x => Return x
  | None => Raise IndexError
  end.

Definition bind {A B : Type} (m : outcome A) (k : A -> outcome B) : outcome B :=
  match m with
  | Return a => k a
  | Raise e => Raise e
  end.

Notation "x <- m ;; k" := (bind m (fun x => k))
  (at level 61, m at next level, right associativity).

(** [str(n)] for a non-negative integer: its decimal digits.  [fuel]
    bounds the number of digits. *)
Fixpoint digits_go (fuel : nat) (n : N) (acc : str) : str :=
  match fuel with
  | O => acc
  | S fuel' =>
      let acc' := (48 + n mod 10)%N :: acc in
      if (n <? 10)%N then acc' else digits_go fuel' (n / 10)%N acc'
  end.

Definition str_of_N (n : N) : str := digits_go (S (N.to_nat (N.log2 n))) n [].

(** [str(z)] for an integer. *)
Definition str_of_Z (z : Z) : str :=
  match z with
  | Zneg p => 45%N :: str_of_N (Npos p)
  | _ => str_of_N (Z.to_N z)
  end.

(** ** The [json] standard module

    [json_loads] follows the reference decoder of the standard library
    ([json.decoder], [json.scanner]) and [json_dumps] its encoder with the
    default [ensure_ascii=True].  A Python [dict] is a list of pairs in
    insertion order with distinct keys.  A float is represented by the
    literal that denotes it ([JFloat]): the decoder accepts exactly the float
    literals Python accepts, but the binary value is not computed, so
    equalities between values are only stated for float-free values. *)

Inductive json :=
| JNull
| JBool (b : bool)
| JInt (z : Z)
| JFloat (literal : str)
| JStr (s : str)
| JList (items : list json)
| JDict (pairs : list (str * json)).

(** [d[k] = v] on an insertion-ordered dict. *)
Fixpoint dict_set (k : str) (v : json) (d : list (str * json)) : list (str * json) :=
  match d with
  | [] => [(k, v)]
  | (k', v') :: d' =>
      if str_eqb k k' then (k, v) :: d' else (k', v') :: dict_set k v d'
  end.

(** [dict(pairs)]: later pairs overwrite earlier ones with the same key. *)
Definition dict_of_pairs (pairs : list (str * json)) : list (str * json) :=
  fold_left (fun d kv => dict_set (fst kv) (snd kv) d) pairs [].

Definition is_ws (c : char) : bool :=
  ((c =? 32) || (c =? 9) || (c =? 10) || (c =? 13))%N.

Fixpoint skip_ws (s : str) : str :=
  match s with
  | c :: s' => if is_ws c then skip_ws s' else s
  | [] => []
  end.

Definition is_digit (c : char) : bool := ((48 <=? c) && (c <=? 57))%N.

(** Longest prefix of decimal digits, and what follows it. *)
Fixpoint span_digits (s : str) : str * str :=
  match s with
  | c :: s' =>
      if is_digit c
      then let (d, r) := span_digits s' in (c :: d, r)
      else ([], s)
  | [] => ([], [])
  end.

Definition N_of_digits (d : str) : N :=
  fold_left (fun a c => (10 * a + (c - 48))%N) d 0%N.

Definition hexval (c : char) : option N :=
  (if (48 <=? c) && (c <=? 57) then Some (c - 48)
   else if (97 <=? c) && (c <=? 102) then Some (c - 87)
   else if (65 <=? c) && (c <=? 70) then Some (c - 55)
   else None)%N.

(** The four hex digits of a [\uXXXX] escape. *)
Definition decode_uXXXX (h1 h2 h3 h4 : char) : option N :=
  match hexval h1, hexval h2, hexval h3, hexval h4 with
  | Some a, Some b, Some c, Some d => Some (((a * 16 + b) * 16 + c) * 16 + d)%N
  | _, _, _, _ => None
  end.

(** The one-letter escapes: quote, backslash, slash, b, f, n, r, t. *)
Definition unescape (e : char) : option char :=
  (if e =? 34 then Some 34 else if e =? 92 then Some 92
   else if e =? 47 then Some 47 else if e =? 98 then Some 8
   else if e =? 102 then Some 12 else if e =? 110 then Some 10
   else if e =? 114 then Some 13 else if e =? 116 then Some 9
   else None)%N.

Definition is_high_surrogate (c : N) : bool := ((55296 <=? c) && (c <=? 56319))%N.
Definition is_low_surrogate (c : N) : bool := ((56320 <=? c) && (c <=? 57343))%N.

(** [scanstring]: [s] starts just after the opening quote; the result is
    the decoded string and the input after the closing quote.  Control
    characters are rejected (strict mode); a high surrogate escape directly
    followed by a low surrogate escape is one code point. *)
Fixpoint scanstring (s : str) (acc : str) : option (str * str) :=
  match s with
  | [] => None
  | c :: s1 =>
      if (c =? 34)%N then Some (rev acc, s1)
      else if (c =? 92)%N then
        match s1 with
        | [] => None
        | e :: s2 =>
            if (e =? 117)%N then
              match s2 with
              | h1 :: h2 :: h3 :: h4 :: s3 =>
                  match decode_uXXXX h1 h2 h3 h4 with
                  | None => None
                  | Some uni =>
                      match s3 with
                      | b :: u :: l1 :: l2 :: l3 :: l4 :: s4 =>
                          if is_high_surrogate uni && (b =? 92)%N && (u =? 117)%N then
                            match decode_uXXXX l1 l2 l3 l4 with
                            | None => None
                            | Some uni2 =>
                                if is_low_surrogate uni2
                                then scanstring s4
                                       ((65536 + ((uni - 55296) * 1024 + (uni2 - 56320)))%N :: acc)
                                else scanstring s3 (uni :: acc)
                            end
                          else scanstring s3 (uni :: acc)
                      | b :: u :: _ =>
                          if is_high_surrogate uni && (b =? 92)%N && (u =? 117)%N
                          then None
                          else scanstring s3 (uni :: acc)
                      | _ => scanstring s3 (uni :: acc)
                      end
                  end
              | _ => None
              end
            else
              match unescape e with
              | Some ch => scanstring s2 (ch :: acc)
              | None => None
              end
        end
      else if (c <? 32)%N then None
      else scanstring s1 (c :: acc)
  end.

(** [match_number]: the scanner's number pattern, an optional minus
    sign, then either a single 0 or a non-zero digit followed by digits, then
    an optional fraction (a dot and at least one digit), then an optional
    exponent (e or E, an optional sign, at least one digit).  Without
    fraction and exponent the literal is an [int], otherwise a [float]. *)
Definition match_int_part (s : str) : option (str * str) :=
  match s with
  | c :: s' =>
      if (c =? 48)%N then Some ([c], s')
      else if is_digit c then let (d, r) := span_digits s' in Some (c :: d, r)
      else None
  | [] => None
  end.

Definition match_frac_part (s : str) : str * str :=
  match s with
  | c :: s' =>
      if (c =? 46)%N then
        match span_digits s' with
        | ([], _) => ([], s)
        | (d, r) => (c :: d, r)
        end
      else ([], s)
  | [] => ([], s)
  end.

Definition match_exp_part (s : str) : str * str :=
  match s with
  | c :: s' =>
      if ((c =? 101) || (c =? 69))%N then
        let (sign, s'') :=
          match s' with
          | g :: t => if ((g =? 45) || (g =? 43))%N then ([g], t) else ([], s')
          | [] => ([], s')
          end in
        match span_digits s'' with
        | ([], _) => ([], s)
        | (d, r) => (c :: sign ++ d, r)
        end
      else ([], s)
  | [] => ([], s)
  end.

Definition match_number (s : str) : option (json * str) :=
  let (sign, s0) :=
    match s with
    | c :: s' => if (c =? 45)%N then ([c], s') else ([], s)
    | [] => ([], s)
    end in
  match match_int_part s0 with
  | None => None
  | Some (int_digits, s1) =>
      let (frac, s2) := match_frac_part s1 in
      let (exp, s3) := match_exp_part s2 in
      match frac, exp with
      | [], [] =>
          let n := Z.of_N (N_of_digits int_digits) in
          Some (JInt (match sign with [] => n | _ => - n end)%Z, s3)
      | _, _ => Some (JFloat (sign ++ int_digits ++ frac ++ exp), s3)
      end
  end.

(** [scan_once]: one JSON value at the head of [s], and the input after
    it.  [parse_elements] runs the loop of [JSONArray] and [parse_members]
    the loop of [JSONObject] (entered just after the opening quote of a
    key).  [fuel] bounds the number of nested calls. *)
Fixpoint parse_value (fuel : nat) (s : str) : option (json * str) :=
  match fuel with
  | O => None
  | S fuel' =>
      match s with
      | [] => None
      | c :: s' =>
          if (c =? 34)%N then
            match scanstring s' [] with
            | Some (k, r) => Some (JStr k, r)
            | None => None
            end
          else if (c =? 123)%N then
            match skip_ws s' with
            | c1 :: r1 =>
                if (c1 =? 125)%N then Some (JDict [], r1)
                else if (c1 =? 34)%N then
                  match parse_members fuel' r1 [] with
                  | Some (pairs, r) => Some (JDict (dict_of_pairs pairs), r)
                  | None => None
                  end
                else None
            | [] => None
            end
          else if (c =? 91)%N then
            match skip_ws s' with
            | c1 :: r1 =>
                if (c1 =? 93)%N then Some (JList [], r1)
                else parse_elements fuel' (c1 :: r1) []
            | [] => None
            end
          else if startswith s (py "null") then Some (JNull, skipn 4 s)
          else if startswith s (py "true") then Some (JBool true, skipn 4 s)
          else if startswith s (py "false") then Some (JBool false, skipn 5 s)
          else
            match match_number s with
            | Some r => Some r
            | None =>
                if startswith s (py "NaN") then Some (JFloat (py "NaN"), skipn 3 s)
                else if startswith s (py "Infinity")
                then Some (JFloat (py "Infinity"), skipn 8 s)
                else if startswith s (py "-Infinity")
                then Some (JFloat (py "-Infinity"), skipn 9 s)
                else None
            end
      end
  end
with parse_elements (fuel : nat) (s : str) (acc : list json) : option (json * str) :=
  match fuel with
  | O => None
  | S fuel' =>
      match parse_value fuel' s with
      | None => None
      | Some (v, r) =>
          match skip_ws r with
          | c :: r1 =>
              if (c =? 93)%N then Some (JList (rev (v :: acc)), r1)
              else if (c =? 44)%N then parse_elements fuel' (skip_ws r1) (v :: acc)
              else None
          | [] => None
          end
      end
  end
with parse_members (fuel : nat) (s : str) (acc : list (str * json))
  : option (list (str * json) * str) :=
  match fuel with
  | O => None
  | S fuel' =>
      match scanstring s [] with
      | None => None
      | Some (k, r) =>
          match skip_ws r with
          | c :: r1 =>
              if (c =? 58)%N then
                match parse_value fuel' (skip_ws r1) with
                | None => None
                | Some (v, r2) =>
                    match skip_ws r2 with
                    | c2 :: r3 =>
                        if (c2 =? 125)%N then Some (rev ((k, v) :: acc), r3)
                        else if (c2 =? 44)%N then
                          match skip_ws r3 with
                          | c3 :: r4 =>
                              if (c3 =? 34)%N
                              then parse_members fuel' r4 ((k, v) :: acc)
                              else None
                          | [] => None
                          end
                        else None
                    | [] => None
                    end
                end
              else None
          | [] => None
          end
      end
  end.

(** [json.loads(s)]: leading whitespace, one value, trailing whitespace,
    end of input; anything else raises [JSONDecodeError].  The fuel is enough
    for every text (lemma [json_loads_fuel]). *)
Definition json_loads (s : str) : outcome json :=
  match parse_value (S (length s)) (skip_ws s) with
  | Some (v, r) =>
      match skip_ws r with
      | [] => Return v
      | _ :: _ => Raise JSONDecodeError
      end
  | None => Raise JSONDecodeError
  end.

(** The encoder.  [hexdigit] prints lower-case hex; a code point above
    the basic plane is written as a surrogate pair. *)
Definition hexdigit (n : N) : char := (if n <? 10 then 48 + n else 87 + n)%N.

Definition u_escape (n : N) : str :=
  [92; 117; hexdigit (n / 4096); hexdigit ((n / 256) mod 16);
   hexdigit ((n / 16) mod 16); hexdigit (n mod 16)]%N.

Definition escape_char (c : char) : str :=
  (if c =? 34 then [92; 34]
   else if c =? 92 then [92; 92]
   else if c =? 10 then [92; 110]
   else if c =? 13 then [92; 114]
   else if c =? 9 then [92; 116]
   else if c =? 8 then [92; 98]
   else if c =? 12 then [92; 102]
   else if (32 <=? c) && (c <=? 126) then [c]
   else if c <? 65536 then u_escape c
   else u_escape (55296 + ((c - 65536) / 1024) mod 1024) ++
        u_escape (56320 + (c - 65536) mod 1024))%N.

Definition encode_str (s : str) : str :=
  34%N :: flat_map escape_char s ++ [34%N].

(** [sep.join(l)] *)
Fixpoint join (sep : str) (l : list str) : str :=
  match l with
  | [] => []
  | [x] => x
  | x :: l' => x ++ sep ++ join sep l'
  end.

(** A newline and the indentation of [level], when an indent is set. *)
Definition newline_indent (indent : option nat) (level : nat) : str :=
  match indent with
  | Some n => 10%N :: repeat 32%N (n * level)
  | None => []
  end.

Definition item_separator (indent : option nat) (level : nat) : str :=
  match indent with
  | Some _ => 44%N :: newline_indent indent level
  | None => py ", "
  end.

(** [json.dumps(v, indent=indent)] at nesting depth [level].  For a
    float Python prints the shortest literal of its binary value; the model
    prints the literal it holds. *)
Fixpoint encode (indent : option nat) (level : nat) (v : json) : str :=
  match v with
  | JNull => py "null"
  | JBool true => py "true"
  | JBool false => py "false"
  | JInt z => str_of_Z z
  | JFloat literal => literal
  | JStr s => encode_str s
  | JList [] => py "[]"
  | JList items =>
      py "[" ++ newline_indent indent (S level) ++
      join (item_separator indent (S level))
           (map (encode indent (S level)) items) ++
      newline_indent indent level ++ py "]"
  | JDict [] => py "{}"
  | JDict pairs =>
      py "{" ++ newline_indent indent (S level) ++
      join (item_separator indent (S level))
           (map (fun kv => encode_str (fst kv) ++ py ": " ++
                           encode indent (S level) (snd kv)) pairs) ++
      newline_indent indent level ++ py "}"
  end.


(** ** extract_json_from_text *)

Definition json_fence : str := py "```json".
Definition fence : str := py "```".

Definition extract_json_from_text (text : str) : outcome json :=
  match json_loads text with
  | Return v => Return v
  | Raise _ =>
      json_str <-
        (if contains json_fence text then
           after <- getitem (split json_fence text) 1 ;;
           inner <- getitem (split fence after) 0 ;;
           Return (strip inner)
         else if contains fence text then
           after <- getitem (split fence text) 1 ;;
           inner <- getitem (split fence after) 0 ;;
           Return (strip inner)
         else
           let start := find (py "{") text in
           let end_ := (rfind (py "}") text + 1)%Z in
           if negb (start =? -1)%Z && (end_ >? start)%Z
           then Return (slice text start end_)
           else Raise (ValueError (py "No JSON found in response"))) ;;
      json_loads json_str
  end.

(** ** The operating system and PyPDF2, as the code sees them

    [os.path] is an interface: the code only composes its functions.
    Printing is not modelled (no result depends on it). *)

Record os_path := {
  path_join : str -> str -> str;
  path_exists : str -> bool;
  path_normpath : str -> str;
  path_abspath : str -> outcome str
}.

(** What [open(path, 'rb')] followed by [PyPDF2.PdfReader] finds at a
    path: either an exception before the first page is reached (no such
    file, permission denied, not a PDF, broken page tree), or the pages,
    each of which yields its text or raises when it is extracted. *)
Inductive pdf_source :=
| Unreadable (e : exn)
| Pages (pages : list (outcome str)).

Definition nl : str := [10%N].

(** ** extract_pdf_text *)

(** The [for] loop: [text] is the accumulator, [page_num] the counter of
    [enumerate(..., 1)].  The result is the value of [text] when the loop
    ends and the exception that ended it, if any. *)
Fixpoint read_pages (pages : list (outcome str)) (page_num : nat) (text : str)
  : str * option exn :=
  match pages with
  | [] => (text, None)
  | Return page_text :: rest =>
      read_pages rest (S page_num)
        (text ++ nl ++ py "--- Page " ++ str_of_N (N.of_nat page_num) ++
         py " ---" ++ nl ++ page_text ++ nl)
  | Raise e :: _ => (text, Some e)
  end.

(** The body of the [try]. *)
Definition extract_pdf_body (src : pdf_source) (text : str) : str * option exn :=
  match src with
  | Unreadable e => (text, Some e)
  | Pages pages => read_pages pages 1 text
  end.

Definition extract_pdf_text (pdfs : str -> pdf_source) (pdf_path : str)
  : outcome str :=
  let text := [] in
  match extract_pdf_body (pdfs pdf_path) text with
  | (text, None) => Return text
  | (text, Some _) => Return text      (* except Exception: report, go on *)
  end.

(** ** The document tools *)

Inductive pyval :=
| VStr (s : str)
| VInt (z : Z).

Definition pydict := list (str * pyval).

Fixpoint dict_get (d : pydict) (k : str) : option pyval :=
  match d with
  | [] => None
  | (k', v) :: d' => if str_eqb k k' then Some v else dict_get d' k
  end.

Section Tools.
Variable os : os_path.
Variable pdfs : str -> pdf_source.

Definition process_question_paper (pdf_path : str) : outcome pydict :=
  let pdf_path := path_normpath os pdf_path in
  text <- extract_pdf_text pdfs pdf_path ;;
  Return [(py "text", VStr text);
          (py "path", VStr pdf_path);
          (py "type", VStr (py "question_paper"));
          (py "char_count", VInt (len text))].

Definition process_answer_sheet (pdf_path : str) : outcome pydict :=
  let pdf_path := path_normpath os pdf_path in
  text <- extract_pdf_text pdfs pdf_path ;;
  Return [(py "text", VStr text);
          (py "path", VStr pdf_path);
          (py "type", VStr (py "answer_sheet"));
          (py "char_count", VInt (len text))].

Definition process_textbook (pdf_path : str) : outcome pydict :=
  let pdf_path := path_normpath os pdf_path in
  text <- extract_pdf_text pdfs pdf_path ;;
  Return [(py "text", VStr text);
          (py "path", VStr pdf_path);
          (py "type", VStr (py "textbook"));
          (py "char_count", VInt (len text))].
End Tools.

(** ** save_results_to_file *)

(** File contents by path. *)
Definition files := str -> option str.

Definition write_file (fs : files) (path content : str) : files :=
  fun p => if str_eqb p path then Some content else fs p.

(** What the operating system does with this call's [open(filename, 'w')]
    and the writes that follow: all of it succeeds, the open raises, or a
    write raises after [written] characters reached the file. *)
Inductive write_fault :=
| NoFault
| OpenFails (e : exn)
| WriteFails (written : nat) (e : exn).

Section Save.
Variable os : os_path.
(** [str(e)] *)
Variable describe : exn -> str.

Definition saved_message (abs_path : str) : str :=
  10003%N :: py " Results saved successfully to: " ++ abs_path.

Definition error_message (e : exn) : str :=
  10007%N :: py " Error saving results: " ++ describe e.

(** The result is the returned message (or a propagated exception) and
    the file system afterwards. *)
Definition save_results_to_file (fault : write_fault) (fs : files)
    (results_json filename : str) : outcome str * files :=
  match json_loads results_json with
  | Raise e => (Return (error_message e), fs)
  | Return results =>
      let content := encode (Some 2) 0 results in
      match fault with
      | OpenFails e => (Return (error_message e), fs)
      | WriteFails written e =>
          (Return (error_message e),
           write_file fs filename (firstn written content))
      | NoFault =>
          let fs' := write_file fs filename content in
          match path_abspath os filename with
          | Return abs_path => (Return (saved_message abs_path), fs')
          | Raise e => (Return (error_message e), fs')
          end
      end
  end.
End Save.

(** ** Configuration and run_grading_system *)

Record Config := {
  GEMINI_API_KEY : str;
  DATASET_PATH : str;
  QUESTION_PAPER : str;
  ANSWER_SHEET : str;
  TEXTBOOK : str;
  MODEL_NAME : str;
  APP_NAME : str;
  USER_ID : str
}.

(** The class attributes; the key is read from the environment. *)
Definition config (google_api_key : str) : Config := {|
  GEMINI_API_KEY := google_api_key;
  DATASET_PATH := py "./exam-data";
  QUESTION_PAPER := py "question_paper.pdf";
  ANSWER_SHEET := py "student_answer_sheet1.pdf";
  TEXTBOOK := py "textbook_notes.pdf";
  MODEL_NAME := py "gemini-2.0-flash-lite";
  APP_NAME := py "exam_grading_system";
  USER_ID := py "student_001"
|}.

(** The reasoning service behind the ADK runner.  An event of the
    response list either has content parts (their texts) or none. *)
Record adk := {
  create_session : str -> outcome str;
  run_debug : str -> outcome (list (option (list str)))
}.

(** What a run does to the outside world, in order. *)
Inductive event :=
| EvExists (path : str)
| EvNewRunner
| EvCreateSession (user_id : str)
| EvRunDebug (request : str).

Definition grading_request (question_paper_path answer_sheet_path textbook_path : str)
  : str :=
  py "
Please grade this exam completely using the 4-phase workflow.

FILE LOCATIONS:
1. Question Paper: " ++ question_paper_path ++ py "
2. Student Answer Sheet: " ++ answer_sheet_path ++ py "
3. Reference Textbook/Notes: " ++ textbook_path ++ py "

INSTRUCTIONS:
Execute the complete grading workflow:

Phase 1: Use DocumentProcessor to process all three PDF files
Phase 2: Use QuestionSchemaAnalyzer to create question paper schema
Phase 3: Use AnswerEvaluator to evaluate student answers against textbook
Phase 4: Use ScoringAgent to calculate final scores and generate comprehensive report

After completing all phases, present a clear, professional final report with:
- Overall performance (marks, percentage, grade)
- Question-wise breakdown with detailed feedback
- Performance analysis (strengths & areas for improvement)

Also save the results to a JSON file using the save_results_to_file tool.

Begin the grading process now.
".

Section Run.
Variable os : os_path.
Variable service : adk.
Variable cfg : Config.

(** The validation loop: [true] when every path exists; the loop
    returns at the first path that does not. *)
Fixpoint check_files (paths : list (str * str)) (trace : list event)
  : bool * list event :=
  match paths with
  | [] => (true, trace)
  | (path, name) :: rest =>
      if path_exists os path
      then check_files rest (trace ++ [EvExists path])
      else (false, trace ++ [EvExists path])
  end.

(** The value of [response[-1]] examined after [run_debug]. *)
Definition final_report (response : list (option (list str))) : option str :=
  match rev response with
  | Some (final_text :: _) :: _ => Some final_text
  | _ => None
  end.

(** The trace of the run and what it returns: the response list,
    [None], or an exception that escapes. *)
Definition run_grading_system
  : list event * outcome (option (list (option (list str)))) :=
  let question_paper_path := path_join os (DATASET_PATH cfg) (QUESTION_PAPER cfg) in
  let answer_sheet_path := path_join os (DATASET_PATH cfg) (ANSWER_SHEET cfg) in
  let textbook_path := path_join os (DATASET_PATH cfg) (TEXTBOOK cfg) in
  match check_files [(question_paper_path, py "Question Paper");
                     (answer_sheet_path, py "Answer Sheet");
                     (textbook_path, py "Textbook/Notes")] [] with
  | (false, trace) => (trace, Return None)
  | (true, trace) =>
      let trace := trace ++ [EvNewRunner; EvCreateSession (USER_ID cfg)] in
      match create_session service (USER_ID cfg) with
      | Raise e => (trace, Raise e)
      | Return session =>
          let request :=
            grading_request question_paper_path answer_sheet_path textbook_path in
          let trace := trace ++ [EvRunDebug request] in
          match run_debug service request with
          | Raise _ => (trace, Return None)
          | Return response =>
              match final_report response with
              | Some _ => (trace, Return (Some response))
              | None => (trace, Return None)
              end
          end
      end
  end.
End Run.

(** A call to the reasoning service. *)
Definition is_service_call (e : event) : bool :=
  match e with
  | EvExists _ => false
  | EvNewRunner => false
  | EvCreateSession _ => true
  | EvRunDebug _ => true
  end.

(** ** Specification-side notions used in the statements *)

(** The block one page contributes to the extracted text. *)
Definition page_block (page_num : nat) (page_text : str) : str :=
  nl ++ py "--- Page " ++ str_of_N (N.of_nat page_num) ++ py " ---" ++ nl ++
  page_text ++ nl.

(** The blocks of consecutive pages, numbered from [page_num]. *)
Fixpoint pages_text (page_num : nat) (texts : list str) : str :=
  match texts with
  | [] => []
  | t :: rest => page_block page_num t ++ pages_text (S page_num) rest
  end.

(** [sub] occurs in [s] at index [i]. *)
Definition occurs_at (sub s : str) (i : nat) : Prop :=
  startswith (skipn i s) sub = true.

(** [text] is [pre], then the first occurrence of [sub], then [post]. *)
Definition first_occurrence (sub text pre post : str) : Prop :=
  text = pre ++ sub ++ post /\
  forall i, i < length pre -> ~ occurs_at sub text i.

(** [x] is the part of [s] before the first occurrence of [sub], or all
    of [s] when [sub] does not occur in it. *)
Definition up_to (sub s x : str) : Prop :=
  (exists rest, first_occurrence sub s x rest) \/
  (contains sub s = false /\ x = s).

(** Some ['{'] of [text] is followed, later on, by a ['}']. *)
Definition brace_pair (text : str) : Prop :=
  exists a m b, text = a ++ 123%N :: m ++ 125%N :: b.


(** A Unicode scalar value: a code point that is not a surrogate. *)
Definition is_scalar (c : char) : bool :=
  ((c <? 55296) || ((57344 <=? c) && (c <? 1114112)))%N.

Fixpoint keys_distinct (keys : list str) : bool :=
  match keys with
  | [] => true
  | k :: rest => negb (existsb (str_eqb k) rest) && keys_distinct rest
  end.

(** The values the round-trip statements range over: no float, strings
    and keys made of scalar values, distinct keys in every object. *)
Fixpoint json_valid (v : json) : bool :=
  match v with
  | JNull => true
  | JBool _ => true
  | JInt _ => true
  | JFloat _ => false
  | JStr s => forallb is_scalar s
  | JList items => forallb json_valid items
  | JDict pairs =>
      keys_distinct (map fst pairs) &&
      forallb (fun kv => forallb is_scalar (fst kv) && json_valid (snd kv)) pairs
  end.

(** [json_valid] is [json_plain] (no float, scalar strings and keys)
    together with [keys_ok] (distinct keys in every object); the decoder only
    builds values that are [keys_ok]. *)
Fixpoint json_plain (v : json) : bool :=
  match v with
  | JNull => true
  | JBool _ => true
  | JInt _ => true
  | JFloat _ => false
  | JStr s => forallb is_scalar s
  | JList items => forallb json_plain items
  | JDict pairs =>
      forallb (fun kv => forallb is_scalar (fst kv) && json_plain (snd kv)) pairs
  end.

Fixpoint keys_ok (v : json) : bool :=
  match v with
  | JList items => forallb keys_ok items
  | JDict pairs =>
      keys_distinct (map fst pairs) && forallb (fun kv => keys_ok (snd kv)) pairs
  | _ => true
  end.

(** A bound on the nested calls [parse_value] makes on the text of a
    value. *)
Fixpoint json_size (v : json) : nat :=
  match v with
  | JList items => S (list_sum (map (fun x => S (json_size x)) items))
  | JDict pairs => S (list_sum (map (fun kv => S (json_size (snd kv))) pairs))
  | _ => 1
  end.

(** What may follow a number literal without being read as part of it. *)
Definition terminated (rest : str) : bool :=
  match rest with
  | [] => true
  | c :: _ => negb (is_digit c || (c =? 46) || (c =? 101) || (c =? 69))%N
  end.


(** [d] is the decimal literal of [n]: digits only, no leading zero. *)
Definition decimal_of (d : str) (n : N) : Prop :=
  forallb is_digit d = true /\
  N_of_digits d = n /\
  exists c t, d = c :: t /\ (c = 48%N -> t = [] /\ n = 0%N).

(** The characters a serialized value can start with. *)
Definition value_start (c : char) : bool :=
  (is_digit c || (c =? 45) || (c =? 34) || (c =? 91) || (c =? 123) ||
   (c =? 110) || (c =? 116) || (c =? 102))%N.

(** The decoder reads the serialization of [v] back, whatever follows
    it, as long as what follows cannot be taken for more of a number. *)
Definition parses (indent : option nat) (level : nat) (v : json) : Prop :=
  forall fuel rest,
    json_size v <= fuel -> terminated rest = true ->
    parse_value fuel (encode indent level v ++ rest) = Some (v, rest).

(** A run that read [a] from [s] and left [r] consumed at least one
    character, and gives the same result with any fuel that covers the
    characters it consumed. *)
Definition enough_fuel {A : Type} (run : nat -> str -> option (A * str))
    (s : str) (a : A) (r : str) : Prop :=
  length r < length s /\
  forall fuel, length s - length r <= fuel -> run fuel s = Some (a, r).

(** ** Concrete worlds for the examples *)

(** [posixpath.join] for two components. *)
Definition posix_join (a b : str) : str :=
  if startswith b (py "/") then b
  else match rev a with
       | [] => b
       | c :: _ => if (c =? 47)%N then a ++ b else a ++ py "/" ++ b
       end.

(** A POSIX [os.path] over a file system that holds the question paper
    and the textbook but no answer sheet. *)
Definition os_without_answer_sheet : os_path := {|
  path_join := posix_join;
  path_exists := fun p => negb (str_eqb p (py "./exam-data/student_answer_sheet1.pdf"));
  path_normpath := fun p => p;
  path_abspath := fun p => Return (py "/home/grader/" ++ p)
|}.

Definition silent_service : adk := {|
  create_session := fun _ => Return (py "session-1");
  run_debug := fun _ => Return []
|}.

(** A POSIX [os.path] over a file system that holds every file. *)
Definition os_with_all_files : os_path := {|
  path_join := posix_join;
  path_exists := fun _ => true;
  path_normpath := fun p => p;
  path_abspath := fun p => Return (py "/home/grader/" ++ p)
|}.


(** A service that answers with one event carrying a one-part report. *)
Definition answering_service : adk := {|
  create_session := fun _ => Return (py "session-1");
  run_debug := fun _ => Return [None; Some [py "Total: 11/20, grade B"]]
|}.

Definition no_files : files := fun _ => None.

(** The double quote, and a small report as the scoring agent sends it. *)
Definition dq : str := [34%N].

Definition report_json : str :=
  py "{" ++ dq ++ py "total" ++ dq ++ py ": 11, " ++
  dq ++ py "grade" ++ dq ++ py ": " ++ dq ++ py "B" ++ dq ++ py "}".

Definition report : json :=
  JDict [(py "total", JInt 11); (py "grade", JStr (py "B"))].

(** ** main and the start-up of the module *)

(** [main]: printing aside, it runs [run_grading_system] and returns its
    result. *)
Definition main (os : os_path) (service : adk) (cfg : Config)
  : list event * outcome (option (list (option (list str)))) :=
  run_grading_system os service cfg.

(** How the script ends: [exit(1)] at import time, or [main] returned (or
    let an exception escape). *)
Inductive script_end :=
| SysExit (code : Z)
| MainEnded (result : outcome (option (list (option (list str))))).

(** The module executed as a script: the key is read from the
    environment (the empty string when it is unset); without a key the
    module exits before anything else happens. *)
Definition script (os : os_path) (service : adk) (google_api_key : str)
  : list event * script_end :=
  match GEMINI_API_KEY (config google_api_key) with
  | [] => ([], SysExit 1)
  | _ :: _ =>
      let (trace, result) := main os service (config google_api_key) in
      (trace, MainEnded result)
  end.

(** ** Further notions used in the statements *)

(** The grades in ascending order. *)
Definition grade_rank (g : str) : nat :=
  if str_eqb g (py "A+") then 5
  else if str_eqb g (py "A") then 4
  else if str_eqb g (py "B") then 3
  else if str_eqb g (py "C") then 2
  else if str_eqb g (py "D") then 1
  else 0.

(** [x <= y] on Python floats; NaN is not comparable. *)
Definition float_le (x y : pyfloat) : Prop :=
  match x, y with
  | NaN, _ => False
  | _, NaN => False
  | NegInf, _ => True
  | _, PosInf => True
  | Finite p, Finite q => (p <= q)%Q
  | _, _ => False
  end.

(** A 7-bit character. *)
Definition is_ascii (c : char) : bool := (c <? 128)%N.

(** No float anywhere in the value. *)
Fixpoint float_free (v : json) : bool :=
  match v with
  | JFloat _ => false
  | JList items => forallb float_free items
  | JDict pairs => forallb (fun kv => float_free (snd kv)) pairs
  | _ => true
  end.

(** A file system that holds one file of notes. *)
Definition notes_only : files :=
  write_file no_files (py "notes.txt") (py "keep me").

(** * Theorems *)

Lemma float_ge_finite (q : Q) (k : Z) :
  float_ge (Finite q) k = true <-> (inject_Z k <= q)%Q.
Proof. simpl. apply Qle_bool_iff. Qed.

Lemma float_ge_finite_false (q : Q) (k : Z) :
  float_ge (Finite q) k = false <-> (q < inject_Z k)%Q.
Proof.
  simpl. split; intros H.
  - apply Qnot_le_lt. intros Hle. apply Qle_bool_iff in Hle. congruence.
  - destruct (Qle_bool (inject_Z k) q) eqn:E; [|reflexivity].
    apply Qle_bool_iff in E. exfalso. exact (Qlt_not_le _ _ H E).
Qed.

(** C1. For every real percentage [p] the grade is decided by the
    threshold chain: ['A+'] exactly on [90,oo), ['A'] exactly on [80,90),
    ['B'] on [70,80), ['C'] on [60,70), ['D'] on [50,60) and ['F'] exactly
    below 50; negative and above-100 inputs are classified like any other,
    and the six boundary cases of the specification evaluate as stated. *)
Theorem calculate_grade_thresholds (p : Q) :
  (calculate_grade (Finite p) = py "A+" <-> (90 <= p)%Q) /\
  (calculate_grade (Finite p) = py "A" <-> (80 <= p /\ p < 90)%Q) /\
  (calculate_grade (Finite p) = py "B" <-> (70 <= p /\ p < 80)%Q) /\
  (calculate_grade (Finite p) = py "C" <-> (60 <= p /\ p < 70)%Q) /\
  (calculate_grade (Finite p) = py "D" <-> (50 <= p /\ p < 60)%Q) /\
  (calculate_grade (Finite p) = py "F" <-> (p < 50)%Q) /\
  calculate_grade (Finite 90%Q) = py "A+" /\
  calculate_grade (Finite (89999 # 1000)%Q) = py "A" /\
  calculate_grade (Finite 50%Q) = py "D" /\
  calculate_grade (Finite (49999 # 1000)%Q) = py "F" /\
  calculate_grade (Finite (-5)%Q) = py "F" /\
  calculate_grade (Finite 150%Q) = py "A+".
Proof.
  unfold calculate_grade.
  destruct (float_ge (Finite p) 90) eqn:E90;
    [apply float_ge_finite in E90 | apply float_ge_finite_false in E90];
  (destruct (float_ge (Finite p) 80) eqn:E80;
    [apply float_ge_finite in E80 | apply float_ge_finite_false in E80]);
  (destruct (float_ge (Finite p) 70) eqn:E70;
    [apply float_ge_finite in E70 | apply float_ge_finite_false in E70]);
  (destruct (float_ge (Finite p) 60) eqn:E60;
    [apply float_ge_finite in E60 | apply float_ge_finite_false in E60]);
  (destruct (float_ge (Finite p) 50) eqn:E50;
    [apply float_ge_finite in E50 | apply float_ge_finite_false in E50]);
  destruct p as [a b]; unfold Qle, Qlt in *; simpl in *;
  try (exfalso; lia);
  repeat split; intros;
  repeat match goal with H : _ /\ _ |- _ => destruct H end;
  try discriminate; try reflexivity; try lia.
Qed.


Lemma calculate_grade_thresholds_witness :
  calculate_grade (Finite (7333 # 100)%Q) = py "B".
Proof.
  apply (proj1 (proj2 (proj2 (calculate_grade_thresholds (7333 # 100)%Q)))).
  split; unfold Qle, Qlt; simpl; lia.
Defined.

(** ** Strings *)

Lemma char_eqb_eq (a b : char) : char_eqb a b = true <-> a = b.
Proof. apply N.eqb_eq. Qed.

Lemma str_eqb_eq (a : str) : forall b, str_eqb a b = true <-> a = b.
Proof.
  induction a as [|x a IH]; intros [|y b]; simpl; try (split; congruence).
  rewrite andb_true_iff, char_eqb_eq, IH. split.
  - intros [-> ->]. reflexivity.
  - intros H. injection H as -> ->. auto.
Qed.

Lemma str_eqb_refl (a : str) : str_eqb a a = true.
Proof. now apply str_eqb_eq. Qed.

Lemma startswith_iff (p : str) : forall s,
  startswith s p = true <-> exists t, s = p ++ t.
Proof.
  induction p as [|c p IH]; intros s; simpl.
  - split; [intros _; exists s; reflexivity|reflexivity].
  - destruct s as [|d s]; simpl.
    + split; [discriminate|]. intros [t H]. discriminate H.
    + rewrite andb_true_iff, char_eqb_eq, IH. split.
      * intros [-> [t ->]]. eauto.
      * intros [t H]. injection H as -> ->. eauto.
Qed.

Lemma startswith_app (p t : str) : startswith (p ++ t) p = true.
Proof. apply startswith_iff. eauto. Qed.

Lemma startswith_length (s p : str) :
  startswith s p = true -> length p <= length s.
Proof.
  intros H. apply startswith_iff in H. destruct H as [t ->].
  rewrite length_app. lia.
Qed.

Lemma startswith_nil_l (p : str) : p <> [] -> startswith [] p = false.
Proof. destruct p; [congruence|reflexivity]. Qed.

Lemma startswith_app_l (s p t : str) :
  startswith s p = true -> startswith (s ++ t) p = true.
Proof.
  rewrite !startswith_iff. intros [u ->]. exists (u ++ t).
  now rewrite app_assoc.
Qed.

Lemma contains_cons (sub : str) (c : char) (s : str) :
  contains sub (c :: s) = startswith (c :: s) sub || contains sub s.
Proof. reflexivity. Qed.

Lemma contains_false_cons (sub : str) (c : char) (s : str) :
  contains sub (c :: s) = false ->
  startswith (c :: s) sub = false /\ contains sub s = false.
Proof. rewrite contains_cons. apply orb_false_iff. Qed.

Lemma contains_occurs (sub s : str) :
  contains sub s = true <-> exists i, i <= length s /\ occurs_at sub s i.
Proof.
  unfold occurs_at. induction s as [|c s IH].
  - simpl contains. rewrite orb_false_r. split.
    + intros H. exists 0. auto.
    + intros [i [Hi H]]. now destruct i.
  - rewrite contains_cons, orb_true_iff, IH. split.
    + intros [H|[i [Hi H]]].
      * exists 0. split; [lia|exact H].
      * exists (S i). split; [simpl; lia|exact H].
    + intros [[|i] [Hi H]].
      * left. exact H.
      * right. exists i. split; [simpl in Hi; lia|exact H].
Qed.



Lemma first_occurrence_uncons (sub : str) (c : char) (pre post : str) :
  first_occurrence sub (c :: pre ++ sub ++ post) (c :: pre) post ->
  startswith (c :: pre ++ sub ++ post) sub = false /\
  first_occurrence sub (pre ++ sub ++ post) pre post.
Proof.
  intros [_ Hfirst]. split.
  - destruct (startswith (c :: pre ++ sub ++ post) sub) eqn:E; [|reflexivity].
    exfalso. apply (Hfirst 0); [simpl; lia|exact E].
  - split; [reflexivity|]. intros i Hi H.
    apply (Hfirst (S i)); [simpl; lia|exact H].
Qed.


Lemma first_occurrence_contains (sub s pre post : str) :
  first_occurrence sub s pre post -> contains sub s = true.
Proof.
  intros [-> _]. apply contains_occurs. exists (length pre). split.
  - rewrite length_app. lia.
  - unfold occurs_at. rewrite skipn_app, skipn_all, Nat.sub_diag. simpl.
    apply startswith_app.
Qed.

Lemma split_go_skip (sub x : str) : forall cur post,
  split_go sub (length x) cur (x ++ post) = split_go sub 0 cur post.
Proof.
  induction x as [|c x IH]; intros cur post; [reflexivity|].
  simpl. apply IH.
Qed.

Lemma split_go_none (sub : str) : forall s cur,
  contains sub s = false -> split_go sub 0 cur s = [rev cur ++ s].
Proof.
  induction s as [|c s IH]; intros cur H.
  - simpl. now rewrite app_nil_r.
  - apply contains_false_cons in H. destruct H as [Hc Hs].
    cbn [split_go]. rewrite Hc, (IH _ Hs). simpl.
    now rewrite <- app_assoc.
Qed.

Lemma split_go_first (sub : str) : sub <> [] -> forall pre post cur,
  first_occurrence sub (pre ++ sub ++ post) pre post ->
  split_go sub 0 cur (pre ++ sub ++ post) =
  (rev cur ++ pre) :: split_go sub 0 [] post.
Proof.
  intros Hsub. induction pre as [|c pre IH]; intros post cur Hfirst.
  - destruct sub as [|a sub]; [congruence|].
    rewrite app_nil_r. cbn [app split_go].
    change (a :: sub ++ post) with ((a :: sub) ++ post).
    rewrite startswith_app. f_equal.
    cbn [length]. rewrite Nat.sub_succ, Nat.sub_0_r.
    apply split_go_skip.
  - apply first_occurrence_uncons in Hfirst. destruct Hfirst as [Hc Hrest].
    cbn [app split_go]. cbn [app] in Hc. rewrite Hc, (IH _ _ Hrest).
    simpl. now rewrite <- app_assoc.
Qed.

Lemma split_first (sub text pre post : str) :
  sub <> [] -> first_occurrence sub text pre post ->
  split sub text = pre :: split sub post.
Proof.
  intros Hsub Hfirst. destruct Hfirst as [Htext Hfirst]. subst text.
  unfold split. rewrite split_go_first; [reflexivity|exact Hsub|].
  split; [reflexivity|exact Hfirst].
Qed.

Lemma split_none (sub s : str) : contains sub s = false -> split sub s = [s].
Proof. intros H. unfold split. now rewrite split_go_none. Qed.

Lemma split_hd (sub s x : str) :
  sub <> [] -> up_to sub s x -> exists l, split sub s = x :: l.
Proof.
  intros Hsub [[rest Hfirst]|[Hnone ->]].
  - rewrite (split_first _ _ _ _ Hsub Hfirst). eauto.
  - rewrite (split_none _ _ Hnone). eauto.
Qed.


Lemma up_to_clean (sub s x : str) :
  sub <> [] -> up_to sub s x -> contains sub x = false.
Proof.
  intros Hsub [[rest [-> Hfirst]]|[Hnone ->]]; [|exact Hnone].
  destruct (contains sub x) eqn:E; [|reflexivity]. exfalso.
  apply contains_occurs in E. destruct E as [i [Hi H]].
  unfold occurs_at in H.
  assert (Hlt : i < length x).
  { destruct (Nat.eq_dec i (length x)) as [->|]; [|lia].
    rewrite skipn_all in H. rewrite (startswith_nil_l _ Hsub) in H. discriminate. }
  apply (Hfirst i Hlt). unfold occurs_at.
  rewrite skipn_app. apply startswith_app_l. exact H.
Qed.

Lemma contains_prefix_fence (text : str) :
  contains json_fence text = true -> contains fence text = true.
Proof.
  rewrite !contains_occurs. intros [i [Hi H]]. exists i. split; [exact Hi|].
  unfold occurs_at in *. apply startswith_iff in H. destruct H as [t H].
  apply startswith_iff. exists (py "json" ++ t). rewrite H. reflexivity.
Qed.

Lemma startswith_char (c d : char) (s : str) :
  startswith (d :: s) [c] = char_eqb c d.
Proof. simpl. apply andb_true_r. Qed.

Lemma char_eqb_neq (a b : char) : a <> b -> char_eqb a b = false.
Proof. intros H. apply N.eqb_neq. exact H. Qed.

Lemma find_from_first (c : char) : forall a t i,
  ~ In c a -> find_from [c] (a ++ c :: t) i = (i + len a)%Z.
Proof.
  unfold len. induction a as [|d a IH]; intros t i Hin.
  - cbn [app find_from]. rewrite startswith_char.
    replace (char_eqb c c) with true by (symmetry; now apply char_eqb_eq).
    simpl. lia.
  - cbn [app find_from]. rewrite startswith_char, char_eqb_neq.
    + rewrite IH; [cbn [length]; lia|]. intros H. apply Hin. now right.
    + intros ->. apply Hin. now left.
Qed.

Lemma find_from_none (c : char) : forall s i,
  ~ In c s -> find_from [c] s i = (-1)%Z.
Proof.
  induction s as [|d s IH]; intros i Hin; [reflexivity|].
  cbn [find_from]. rewrite startswith_char, char_eqb_neq.
  - apply IH. intros H. apply Hin. now right.
  - intros ->. apply Hin. now left.
Qed.

Lemma rfind_from_none (c : char) : forall s i,
  ~ In c s -> rfind_from [c] s i = (-1)%Z.
Proof.
  induction s as [|d s IH]; intros i Hin; [reflexivity|].
  cbn [rfind_from]. rewrite IH by (intros H; apply Hin; now right).
  rewrite Z.eqb_refl, startswith_char, char_eqb_neq; [reflexivity|].
  intros ->. apply Hin. now left.
Qed.

Lemma rfind_from_last (c : char) : forall t b i,
  (0 <= i)%Z -> ~ In c b -> rfind_from [c] (t ++ c :: b) i = (i + len t)%Z.
Proof.
  unfold len. induction t as [|d t IH]; intros b i Hi Hin.
  - cbn [app rfind_from]. rewrite rfind_from_none by exact Hin.
    rewrite Z.eqb_refl, startswith_char.
    replace (char_eqb c c) with true by (symmetry; now apply char_eqb_eq).
    simpl. lia.
  - cbn [app rfind_from]. rewrite IH by (lia || exact Hin).
    destruct (Z.eqb_spec (i + 1 + Z.of_nat (length t)) (-1)); [lia|].
    cbn [length]. lia.
Qed.

(** Every string either does not hold [c], or splits at its first [c]. *)
Lemma split_at_first (c : char) (s : str) :
  ~ In c s \/ exists a t, s = a ++ c :: t /\ ~ In c a.
Proof.
  induction s as [|d s IH]; [left; simpl; tauto|].
  destruct (N.eq_dec c d) as [<-|Hne].
  - right. exists [], s. simpl. tauto.
  - destruct IH as [Hin|[a [t [-> Ha]]]].
    + left. simpl. intros [H|H]; [congruence|tauto].
    + right. exists (d :: a), t. split; [reflexivity|].
      simpl. intros [H|H]; [congruence|tauto].
Qed.

(** Every string either does not hold [c], or splits at its last [c]. *)
Lemma split_at_last (c : char) (s : str) :
  ~ In c s \/ exists t b, s = t ++ c :: b /\ ~ In c b.
Proof.
  induction s as [|d s IH]; [left; simpl; tauto|].
  destruct IH as [Hin|[t [b [-> Hb]]]].
  - destruct (N.eq_dec c d) as [<-|Hne].
    + right. exists [], s. simpl. tauto.
    + left. simpl. intros [H|H]; [congruence|tauto].
  - right. exists (d :: t), b. split; [reflexivity|exact Hb].
Qed.

Lemma slice_middle (a x b : str) :
  slice (a ++ x ++ b) (len a) (len a + len x) = x.
Proof.
  unfold slice, slice_bound, len. rewrite !length_app.
  destruct (Z.ltb_spec (Z.of_nat (length a)) 0); [lia|].
  destruct (Z.ltb_spec (Z.of_nat (length a) + Z.of_nat (length x)) 0); [lia|].
  rewrite !Z.min_l by lia.
  replace (Z.to_nat (Z.of_nat (length a) + Z.of_nat (length x) - Z.of_nat (length a)))
    with (length x) by lia.
  rewrite Nat2Z.id, skipn_app, skipn_all, Nat.sub_diag. cbn [skipn app].
  rewrite firstn_app, firstn_all, Nat.sub_diag. cbn [firstn].
  apply app_nil_r.
Qed.

(** The substring the fallback hands to the parser. *)
Lemma brace_slice (a m b : str) :
  ~ In 123%N a -> ~ In 125%N b ->
  let text := a ++ 123%N :: m ++ 125%N :: b in
  find (py "{") text = len a /\
  rfind (py "}") text = (len a + 1 + len m)%Z /\
  slice text (find (py "{") text) (rfind (py "}") text + 1) =
    123%N :: m ++ [125%N].
Proof.
  intros Ha Hb text.
  assert (Hfind : find (py "{") text = len a).
  { unfold find, text. change (py "{") with [123%N].
    rewrite find_from_first by exact Ha. lia. }
  assert (Hrfind : rfind (py "}") text = (len a + 1 + len m)%Z).
  { unfold rfind, text. change (py "}") with [125%N].
    change (a ++ 123%N :: m ++ 125%N :: b) with (a ++ (123%N :: m) ++ 125%N :: b).
    rewrite app_assoc, rfind_from_last by (lia || exact Hb).
    unfold len. rewrite length_app. cbn [length]. lia. }
  split; [exact Hfind|]. split; [exact Hrfind|].
  rewrite Hfind, Hrfind. unfold text.
  replace (a ++ 123%N :: m ++ 125%N :: b)
    with (a ++ (123%N :: m ++ [125%N]) ++ b)
    by (cbn [app]; now rewrite <- app_assoc).
  replace (len a + 1 + len m + 1)%Z with (len a + len (123%N :: m ++ [125%N]))%Z.
  - apply slice_middle.
  - unfold len. cbn [length]. rewrite length_app. cbn [length]. lia.
Qed.

(** ** extract_json_from_text *)

Lemma json_fence_nonempty : json_fence <> [].
Proof. discriminate. Qed.

Lemma fence_nonempty : fence <> [].
Proof. discriminate. Qed.

(** The candidate text of a fenced branch: the piece after the first
    occurrence of [tag], cut at the next [tag], then cut at the first
    plain fence. *)
Lemma fenced_candidate (tag text pre post x seg : str) :
  tag <> [] ->
  first_occurrence tag text pre post ->
  up_to tag post x ->
  up_to fence x seg ->
  (after <- getitem (split tag text) 1 ;;
   inner <- getitem (split fence after) 0 ;;
   Return (strip inner)) = Return (strip seg).
Proof.
  intros Htag Hfirst Hx Hseg.
  rewrite (split_first _ _ _ _ Htag Hfirst).
  destruct (split_hd _ _ _ Htag Hx) as [l ->].
  cbn [getitem nth_error bind].
  destruct (split_hd _ _ _ fence_nonempty Hseg) as [l' ->].
  reflexivity.
Qed.

Lemma extract_direct (text : str) (v : json) :
  json_loads text = Return v -> extract_json_from_text text = Return v.
Proof. unfold extract_json_from_text. intros ->. reflexivity. Qed.

Lemma extract_json_fenced (text : str) (e : exn) (pre post x seg : str) :
  json_loads text = Raise e ->
  first_occurrence json_fence text pre post ->
  up_to json_fence post x ->
  up_to fence x seg ->
  extract_json_from_text text = json_loads (strip seg).
Proof.
  unfold extract_json_from_text. intros -> Hfirst Hx Hseg.
  rewrite (first_occurrence_contains _ _ _ _ Hfirst).
  rewrite (fenced_candidate json_fence text pre post x seg
             json_fence_nonempty Hfirst Hx Hseg).
  reflexivity.
Qed.

Lemma extract_plain_fenced (text : str) (e : exn) (pre post seg : str) :
  json_loads text = Raise e ->
  contains json_fence text = false ->
  first_occurrence fence text pre post ->
  up_to fence post seg ->
  extract_json_from_text text = json_loads (strip seg).
Proof.
  unfold extract_json_from_text. intros -> Hnone Hfirst Hseg.
  rewrite Hnone, (first_occurrence_contains _ _ _ _ Hfirst).
  rewrite (fenced_candidate fence text pre post seg seg
             fence_nonempty Hfirst Hseg).
  - reflexivity.
  - right. split; [|reflexivity].
    exact (up_to_clean _ _ _ fence_nonempty Hseg).
Qed.

Lemma extract_braces (text : str) (e : exn) (a m b : str) :
  json_loads text = Raise e ->
  contains fence text = false ->
  text = a ++ 123%N :: m ++ 125%N :: b ->
  ~ In 123%N a -> ~ In 125%N b ->
  extract_json_from_text text = json_loads (123%N :: m ++ [125%N]).
Proof.
  unfold extract_json_from_text. intros -> Hnone Htext Ha Hb.
  destruct (contains json_fence text) eqn:Ejson.
  { apply contains_prefix_fence in Ejson. congruence. }
  rewrite Hnone. subst text.
  destruct (brace_slice a m b Ha Hb) as [Hfind [Hrfind Hslice]].
  cbv zeta in Hfind, Hrfind, Hslice.
  rewrite Hslice, Hfind, Hrfind.
  replace (negb (len a =? -1)%Z && (len a + 1 + len m + 1 >? len a)%Z)
    with true; [reflexivity|].
  unfold len. symmetry. apply andb_true_iff. split.
  - apply negb_true_iff, Z.eqb_neq. lia.
  - apply Z.gtb_lt. lia.
Qed.

(** C2. The four steps, in priority order.  (1) A text that parses as a
    whole is returned as parsed.  Otherwise, (2) if it holds a [json] fence,
    the candidate is the content of the first such segment (what follows the
    first opening tag, up to the next one, cut at the first closing fence, or
    all of it when it is not closed), stripped; (3) else, if it holds a plain
    fence, the candidate is the content between the first fence and the
    next, stripped; (4) else the candidate runs from the first opening brace
    to the last closing brace.  The result is the parse of the candidate. *)
Theorem extract_json_priority (text : str) :
  (forall v, json_loads text = Return v ->
             extract_json_from_text text = Return v) /\
  (forall e pre post x seg,
      json_loads text = Raise e ->
      first_occurrence json_fence text pre post ->
      up_to json_fence post x ->
      up_to fence x seg ->
      extract_json_from_text text = json_loads (strip seg)) /\
  (forall e pre post seg,
      json_loads text = Raise e ->
      contains json_fence text = false ->
      first_occurrence fence text pre post ->
      up_to fence post seg ->
      extract_json_from_text text = json_loads (strip seg)) /\
  (forall e a m b,
      json_loads text = Raise e ->
      contains fence text = false ->
      text = a ++ 123%N :: m ++ 125%N :: b ->
      ~ In 123%N a -> ~ In 125%N b ->
      extract_json_from_text text = json_loads (123%N :: m ++ [125%N])).
Proof.
  repeat split.
  - apply extract_direct.
  - intros e pre post x seg. apply extract_json_fenced.
  - intros e pre post seg. apply extract_plain_fenced.
  - intros e a m b. apply extract_braces.
Qed.

Tactic Notation "first_occurrence_by_check" integer(n) :=
  split; [reflexivity|];
  let i := fresh "i" in let Hi := fresh "Hi" in
  intros i Hi;
  do n (destruct i as [|i]; [vm_compute; discriminate|]);
  exfalso; simpl in Hi; lia.

Lemma extract_json_priority_witness :
  extract_json_from_text (py "[1, 2]") = Return (JList [JInt 1; JInt 2]) /\
  extract_json_from_text (py "Sure: ```json" ++ nl ++ py "[1, 2]" ++ nl ++ py "``` done")
    = json_loads (strip (nl ++ py "[1, 2]" ++ nl)) /\
  extract_json_from_text (py "```[7]```") = json_loads (strip (py "[7]")) /\
  extract_json_from_text (py "answer {} ok") = json_loads (py "{}").
Proof.
  split; [|split; [|split]].
  - apply (extract_json_priority (py "[1, 2]")). reflexivity.
  - apply (proj1 (proj2 (extract_json_priority
             (py "Sure: ```json" ++ nl ++ py "[1, 2]" ++ nl ++ py "``` done")))
           JSONDecodeError (py "Sure: ")
           (nl ++ py "[1, 2]" ++ nl ++ py "``` done")
           (nl ++ py "[1, 2]" ++ nl ++ py "``` done")).
    + reflexivity.
    + first_occurrence_by_check 6.
    + right. split; reflexivity.
    + left. exists (py " done"). first_occurrence_by_check 8.
  - apply (proj1 (proj2 (proj2 (extract_json_priority (py "```[7]```"))))
           JSONDecodeError [] (py "[7]```")).
    + reflexivity.
    + reflexivity.
    + first_occurrence_by_check 0.
    + left. exists []. first_occurrence_by_check 3.
  - apply (proj2 (proj2 (proj2 (extract_json_priority (py "answer {} ok"))))
           JSONDecodeError (py "answer ") [] (py " ok")).
    + reflexivity.
    + reflexivity.
    + reflexivity.
    + vm_compute. intuition discriminate.
    + vm_compute. intuition discriminate.
Defined.


Lemma first_split_le (c : char) (a t a0 r : str) :
  a ++ c :: t = a0 ++ c :: r -> ~ In c a -> length a <= length a0.
Proof.
  intros H Ha. apply app_eq_app in H.
  destruct H as [l [[-> H]|[-> H]]].
  - destruct l as [|x l]; [rewrite app_nil_r; lia|].
    injection H as <- _. exfalso. apply Ha, in_or_app. right. now left.
  - rewrite length_app. lia.
Qed.

Lemma last_split_ge (c : char) (t b t0 b0 : str) :
  t ++ c :: b = t0 ++ c :: b0 -> ~ In c b -> length t0 <= length t.
Proof.
  intros H Hb. apply app_eq_app in H.
  destruct H as [l [[-> H]|[-> H]]].
  - rewrite length_app. lia.
  - destruct l as [|x l]; [rewrite app_nil_r; lia|].
    injection H as _ ->. exfalso. apply Hb, in_or_app. right. now left.
Qed.

Lemma between_splits (c d : char) (a t t' b : str) :
  a ++ c :: t = t' ++ d :: b -> length a < length t' ->
  exists m, t = m ++ d :: b.
Proof.
  intros H Hlen. apply app_eq_app in H.
  destruct H as [l [[-> H]|[-> H]]].
  - rewrite length_app in Hlen. lia.
  - destruct l as [|x l].
    + rewrite app_nil_r in Hlen. lia.
    + injection H as _ ->. eauto.
Qed.

(** The guard of the fallback holds exactly when some opening brace is
    followed by a closing one. *)
Lemma brace_guard (text : str) :
  negb (find (py "{") text =? -1)%Z &&
    (rfind (py "}") text + 1 >? find (py "{") text)%Z = true <->
  brace_pair text.
Proof.
  destruct (split_at_first 123%N text) as [Hno|[a [t [Htext Ha]]]].
  { split.
    - unfold find. change (py "{") with [123%N].
      rewrite find_from_none by exact Hno. discriminate.
    - intros [a [m [b ->]]]. exfalso. apply Hno, in_or_app. right. now left. }
  destruct (split_at_last 125%N text) as [Hno|[t' [b [Htext' Hb]]]].
  { split.
    - unfold find, rfind. change (py "{") with [123%N]. change (py "}") with [125%N].
      rewrite rfind_from_none by exact Hno. rewrite Htext.
      rewrite find_from_first by exact Ha. unfold len.
      intros H. apply andb_true_iff in H. destruct H as [_ H].
      apply Z.gtb_lt in H. lia.
    - intros [a0 [m0 [b0 ->]]]. exfalso. apply Hno, in_or_app. right.
      right. apply in_or_app. right. now left. }
  assert (Hfind : find (py "{") text = len a).
  { unfold find. change (py "{") with [123%N]. rewrite Htext.
    rewrite find_from_first by exact Ha. lia. }
  assert (Hrfind : rfind (py "}") text = len t').
  { unfold rfind. change (py "}") with [125%N]. rewrite Htext'.
    rewrite rfind_from_last by (lia || exact Hb). lia. }
  rewrite Hfind, Hrfind. unfold len. split.
  - intros H. apply andb_true_iff in H. destruct H as [_ H].
    apply Z.gtb_lt in H.
    assert (Hlen : length a < length t').
    { destruct (Nat.eq_dec (length a) (length t')) as [E|]; [|lia].
      exfalso. rewrite Htext in Htext'.
      apply app_eq_app in Htext'.
      destruct Htext' as [l [[Hl H']|[Hl H']]];
        rewrite Hl, length_app in E;
        (destruct l as [|x l]; [discriminate H'|cbn [length] in E; lia]). }
    rewrite Htext in Htext'.
    destruct (between_splits _ _ _ _ _ _ Htext' Hlen) as [m ->].
    exists a, m, b. exact Htext.
  - intros [a0 [m0 [b0 H0]]].
    assert (H1 : length a <= length a0).
    { apply (first_split_le 123%N a t a0 (m0 ++ 125%N :: b0)); [|exact Ha].
      now rewrite <- Htext, <- H0. }
    assert (H2 : length (a0 ++ 123%N :: m0) <= length t').
    { apply (last_split_ge 125%N t' b (a0 ++ 123%N :: m0) b0); [|exact Hb].
      rewrite <- Htext', H0, <- app_assoc. reflexivity. }
    rewrite length_app in H2. cbn [length] in H2.
    apply andb_true_iff. split.
    + apply negb_true_iff, Z.eqb_neq. lia.
    + apply Z.gtb_lt. lia.
Qed.






(** ** extract_pdf_text and the document tools *)

Lemma read_pages_cons (t : str) (rest : list (outcome str)) (n : nat) (text : str) :
  read_pages (Return t :: rest) n text =
  read_pages rest (S n) (text ++ page_block n t).
Proof. reflexivity. Qed.

Lemma read_pages_texts (texts : list str) :
  forall (tail : list (outcome str)) (n : nat) (text : str),
    read_pages (map Return texts ++ tail) n text =
    read_pages tail (n + length texts) (text ++ pages_text n texts).
Proof.
  induction texts as [|t texts IH]; intros tail n text.
  - cbn [map app pages_text length]. now rewrite Nat.add_0_r, app_nil_r.
  - cbn [map app pages_text length].
    rewrite read_pages_cons, IH, <- app_assoc. f_equal. lia.
Qed.


Lemma extract_pdf_text_returns (pdfs : str -> pdf_source) (path : str) :
  extract_pdf_text pdfs path = Return (fst (extract_pdf_body (pdfs path) [])).
Proof.
  unfold extract_pdf_text.
  destruct (extract_pdf_body (pdfs path) []) as [text [e|]]; reflexivity.
Qed.



(** C4, as stated, fails: the second page of this document cannot be
    extracted, the operation does not raise, but the text it returns is the
    first page's block, and the Document built from it has 18 characters. *)
Lemma extract_pdf_text_partial_not_empty :
  let pdfs := fun _ : str =>
    Pages [Return (py "a"); Raise (PdfReadError (py "unreadable page"))] in
  let os := {| path_join := fun a b => a ++ b; path_exists := fun _ => true;
               path_normpath := fun p => p; path_abspath := fun p => Return p |} in
  snd (extract_pdf_body (pdfs (py "answers.pdf")) []) =
    Some (PdfReadError (py "unreadable page")) /\
  extract_pdf_text pdfs (py "answers.pdf") <> Return [] /\
  (forall d, process_answer_sheet os pdfs (py "answers.pdf") = Return d ->
             dict_get d (py "char_count") = Some (VInt 18)).
Proof.
  intros pdfs os. split; [reflexivity|]. split.
  - vm_compute. discriminate.
  - intros d H. vm_compute in H. injection H as <-. reflexivity.
Qed.

Ltac document_fields Htext :=
  unfold process_question_paper, process_answer_sheet, process_textbook;
  rewrite Htext; cbn [bind]; eexists; split; [reflexivity|];
  split; reflexivity.

(** C4, amended. [extract_pdf_text] never raises.  When the failure comes
    before any page has been extracted (no such file, a file that is not a
    PDF, an unreadable first page) the text is empty, and so it is for a
    PDF with no pages; each tool then builds a Document with empty text and
    [char_count] 0. *)
Theorem extract_pdf_text_empty_on_early_failure
    (os : os_path) (pdfs : str -> pdf_source) (path : str) :
  (exists text, extract_pdf_text pdfs path = Return text) /\
  (forall e, pdfs path = Unreadable e -> extract_pdf_text pdfs path = Return []) /\
  (forall e rest, pdfs path = Pages (Raise e :: rest) ->
                  extract_pdf_text pdfs path = Return []) /\
  (pdfs path = Pages [] -> extract_pdf_text pdfs path = Return []) /\
  (extract_pdf_text pdfs (path_normpath os path) = Return [] ->
   forall tool, In tool [process_question_paper; process_answer_sheet;
                         process_textbook] ->
     exists d, tool os pdfs path = Return d /\
               dict_get d (py "text") = Some (VStr []) /\
               dict_get d (py "char_count") = Some (VInt 0)).
Proof.
  split; [|split; [|split; [|split]]].
  - rewrite extract_pdf_text_returns. eauto.
  - intros e H. now rewrite extract_pdf_text_returns, H.
  - intros e rest H. now rewrite extract_pdf_text_returns, H.
  - intros H. now rewrite extract_pdf_text_returns, H.
  - intros Htext tool [<-|[<-|[<-|[]]]]; document_fields Htext.
Qed.

Lemma extract_pdf_text_empty_on_early_failure_witness :
  let pdfs := fun _ : str => Unreadable (OSError (py "No such file or directory")) in
  let os := {| path_join := fun a b => a ++ b; path_exists := fun _ => false;
               path_normpath := fun p => p; path_abspath := fun p => Return p |} in
  extract_pdf_text pdfs (py "missing.pdf") = Return [] /\
  exists d, process_textbook os pdfs (py "missing.pdf") = Return d /\
            dict_get d (py "text") = Some (VStr []) /\
            dict_get d (py "char_count") = Some (VInt 0).
Proof.
  intros pdfs os.
  destruct (extract_pdf_text_empty_on_early_failure os pdfs (py "missing.pdf"))
    as [_ [Hmissing [_ [_ Hdoc]]]].
  split.
  - apply (Hmissing (OSError (py "No such file or directory"))). reflexivity.
  - apply Hdoc; [reflexivity|]. simpl. auto.
Defined.


(** ** run_grading_system *)

(** C7. When one of the three input files does not exist at its configured
    path, the run returns [None] having done nothing but existence checks:
    no runner is created and no call to the reasoning service is made, so no
    document is ever processed. *)
Theorem missing_file_aborts_before_service
    (os : os_path) (service : adk) (cfg : Config) :
  path_exists os (path_join os (DATASET_PATH cfg) (QUESTION_PAPER cfg)) = false \/
  path_exists os (path_join os (DATASET_PATH cfg) (ANSWER_SHEET cfg)) = false \/
  path_exists os (path_join os (DATASET_PATH cfg) (TEXTBOOK cfg)) = false ->
  snd (run_grading_system os service cfg) = Return None /\
  existsb is_service_call (fst (run_grading_system os service cfg)) = false /\
  Forall (fun ev => exists path, ev = EvExists path)
         (fst (run_grading_system os service cfg)).
Proof.
  intros Hmissing. unfold run_grading_system. cbn [check_files app].
  destruct (path_exists os (path_join os (DATASET_PATH cfg) (QUESTION_PAPER cfg)));
  [destruct (path_exists os (path_join os (DATASET_PATH cfg) (ANSWER_SHEET cfg)));
   [destruct (path_exists os (path_join os (DATASET_PATH cfg) (TEXTBOOK cfg)))|]|];
  try (exfalso; destruct Hmissing as [H|[H|H]]; discriminate H);
  cbn [fst snd existsb is_service_call orb app];
  (split; [reflexivity|split; [reflexivity|]]);
  repeat constructor; eexists; reflexivity.
Qed.

Lemma missing_file_aborts_before_service_witness :
  run_grading_system os_without_answer_sheet silent_service (config (py "key")) =
  ([EvExists (py "./exam-data/question_paper.pdf");
    EvExists (py "./exam-data/student_answer_sheet1.pdf")], Return None) /\
  existsb is_service_call
    (fst (run_grading_system os_without_answer_sheet silent_service
            (config (py "key")))) = false.
Proof.
  split; [reflexivity|].
  apply (missing_file_aborts_before_service os_without_answer_sheet silent_service
           (config (py "key"))).
  right. left. reflexivity.
Defined.

(** ** save_results_to_file *)

(** C8. When the input string is not valid JSON the function returns the
    error message and leaves every file as it was: parsing comes before the
    output file is opened. *)
Theorem save_invalid_json_leaves_files
    (os : os_path) (describe : exn -> str) (fault : write_fault) (fs : files)
    (results_json filename : str) (e : exn) :
  json_loads results_json = Raise e ->
  save_results_to_file os describe fault fs results_json filename =
    (Return (error_message describe e), fs).
Proof.
  intros Hparse. unfold save_results_to_file. now rewrite Hparse.
Qed.

Lemma save_invalid_json_leaves_files_witness :
  save_results_to_file os_without_answer_sheet (fun _ => py "Expecting value")
    NoFault no_files (py "{total: 11") (py "grading_results.json") =
  (Return (10007%N :: py " Error saving results: Expecting value"), no_files).
Proof.
  apply (save_invalid_json_leaves_files os_without_answer_sheet
           (fun _ => py "Expecting value") NoFault no_files (py "{total: 11")
           (py "grading_results.json") JSONDecodeError).
  reflexivity.
Defined.

(** ** The json module: decimal numbers *)

Lemma N_of_digits_snoc (d : str) (c : char) :
  N_of_digits (d ++ [c]) = (10 * N_of_digits d + (c - 48))%N.
Proof. unfold N_of_digits. now rewrite fold_left_app. Qed.

Lemma digits_go_spec : forall fuel n acc,
  (n < 2 ^ N.of_nat (S fuel))%N ->
  exists d, digits_go (S fuel) n acc = d ++ acc /\ decimal_of d n.
Proof.
  induction fuel as [|fuel IH]; intros n acc Hn;
    cbn [digits_go]; destruct (N.ltb_spec n 10) as [Hlt|Hge].
  1, 3: exists [(48 + n mod 10)%N]; (split; [reflexivity|]);
    rewrite N.mod_small by lia; (split; [|split]);
    [ unfold is_digit; cbn [forallb]; rewrite andb_true_r;
      apply andb_true_iff; split; apply N.leb_le; lia
    | unfold N_of_digits; cbn [fold_left]; lia
    | exists (48 + n)%N, []; split; [reflexivity|];
      intros H; split; [reflexivity|lia] ].
  - exfalso. change (2 ^ N.of_nat 1)%N with 2%N in Hn. lia.
  - assert (Hdiv : (n / 10 < 2 ^ N.of_nat (S fuel))%N).
    { rewrite (Nat2N.inj_succ (S fuel)), N.pow_succ_r' in Hn.
      apply N.Div0.div_lt_upper_bound. lia. }
    destruct (IH (n / 10)%N ((48 + n mod 10)%N :: acc) Hdiv)
      as [d [Heq [Hdig [Hval [c [t [Hd Hzero]]]]]]].
    cbn [digits_go] in Heq.
    pose proof (N.div_mod n 10 ltac:(lia)) as Hdm.
    pose proof (N.mod_upper_bound n 10 ltac:(lia)) as Hmod.
    clear IH Hn Hdiv.
    set (q := (n / 10)%N) in *. set (r := (n mod 10)%N) in *.
    clearbody q r.
    exists (d ++ [(48 + r)%N]). split; [|split; [|split]].
    + rewrite Heq, <- app_assoc. reflexivity.
    + rewrite forallb_app, Hdig. cbn [forallb andb]. rewrite andb_true_r.
      unfold is_digit. apply andb_true_iff.
      split; apply N.leb_le; lia.
    + rewrite N_of_digits_snoc, Hval. lia.
    + exists c, (t ++ [(48 + r)%N]). split; [now rewrite Hd|].
      intros Hc. destruct (Hzero Hc) as [_ H0]. lia.
Qed.

Lemma str_of_N_spec (n : N) : decimal_of (str_of_N n) n.
Proof.
  unfold str_of_N.
  destruct (digits_go_spec (N.to_nat (N.log2 n)) n []) as [d [Heq Hd]].
  - destruct (N.eq_dec n 0) as [->|Hn]; [reflexivity|].
    rewrite Nat2N.inj_succ, N2Nat.id. apply N.log2_spec. lia.
  - rewrite Heq, app_nil_r. exact Hd.
Qed.

Lemma terminated_cons (c : char) (r : str) :
  terminated (c :: r) = true ->
  is_digit c = false /\ (c =? 46)%N = false /\
  (c =? 101)%N = false /\ (c =? 69)%N = false.
Proof.
  unfold terminated. rewrite negb_true_iff, !orb_false_iff. tauto.
Qed.

Lemma span_digits_app (d rest : str) :
  forallb is_digit d = true -> terminated rest = true ->
  span_digits (d ++ rest) = (d, rest).
Proof.
  intros Hd Hrest. induction d as [|c d IH].
  - destruct rest as [|c r]; [reflexivity|].
    apply terminated_cons in Hrest. destruct Hrest as [Hc _].
    cbn [app span_digits]. now rewrite Hc.
  - cbn [forallb] in Hd. apply andb_true_iff in Hd. destruct Hd as [Hc Hd].
    cbn [app span_digits]. now rewrite Hc, (IH Hd).
Qed.

Lemma match_frac_part_none (rest : str) :
  terminated rest = true -> match_frac_part rest = ([], rest).
Proof.
  destruct rest as [|c r]; [reflexivity|]. intros H.
  apply terminated_cons in H. destruct H as [_ [H _]].
  unfold match_frac_part. now rewrite H.
Qed.

Lemma match_exp_part_none (rest : str) :
  terminated rest = true -> match_exp_part rest = ([], rest).
Proof.
  destruct rest as [|c r]; [reflexivity|]. intros H.
  apply terminated_cons in H. destruct H as [_ [_ [H1 H2]]].
  unfold match_exp_part. now rewrite H1, H2.
Qed.

Lemma match_int_part_decimal (d rest : str) (n : N) :
  decimal_of d n -> terminated rest = true ->
  match_int_part (d ++ rest) = Some (d, rest).
Proof.
  intros [Hdig [_ [c [t [-> Hzero]]]]] Hrest.
  cbn [forallb] in Hdig. apply andb_true_iff in Hdig. destruct Hdig as [Hc Ht].
  cbn [app match_int_part]. destruct (N.eqb_spec c 48) as [E|_].
  - destruct (Hzero E) as [-> _]. reflexivity.
  - now rewrite Hc, (span_digits_app t rest Ht Hrest).
Qed.

Lemma decimal_head_digit (d : str) (n : N) :
  decimal_of d n -> exists c t, d = c :: t /\ is_digit c = true.
Proof.
  intros [Hdig [_ [c [t [-> _]]]]]. exists c, t. split; [reflexivity|].
  cbn [forallb] in Hdig. now apply andb_true_iff in Hdig.
Qed.

Lemma is_digit_range (c : char) :
  is_digit c = true -> (48 <= c <= 57)%N.
Proof.
  unfold is_digit. rewrite andb_true_iff, !N.leb_le. tauto.
Qed.

Lemma match_number_unsigned (d rest : str) (n : N) :
  decimal_of d n -> terminated rest = true ->
  match_number (d ++ rest) = Some (JInt (Z.of_N n), rest).
Proof.
  intros Hd Hrest. unfold match_number.
  destruct (decimal_head_digit d n Hd) as [c [t [E Hc]]].
  rewrite E. cbn [app]. destruct (N.eqb_spec c 45) as [->|_]; [discriminate Hc|].
  change (c :: t ++ rest) with ((c :: t) ++ rest). rewrite <- E.
  rewrite (match_int_part_decimal d rest n Hd Hrest).
  rewrite (match_frac_part_none rest Hrest), (match_exp_part_none rest Hrest).
  destruct Hd as [_ [-> _]]. reflexivity.
Qed.

Lemma match_number_negative (d rest : str) (n : N) :
  decimal_of d n -> terminated rest = true ->
  match_number (45%N :: d ++ rest) = Some (JInt (- Z.of_N n), rest).
Proof.
  intros Hd Hrest. unfold match_number. cbn [N.eqb Pos.eqb].
  rewrite (match_int_part_decimal d rest n Hd Hrest).
  rewrite (match_frac_part_none rest Hrest), (match_exp_part_none rest Hrest).
  destruct Hd as [_ [-> _]]. reflexivity.
Qed.

Lemma match_number_str_of_Z (z : Z) (rest : str) :
  terminated rest = true ->
  match_number (str_of_Z z ++ rest) = Some (JInt z, rest).
Proof.
  intros Hrest. destruct z as [|p|p]; unfold str_of_Z.
  - now rewrite (match_number_unsigned _ rest _ (str_of_N_spec _) Hrest).
  - rewrite (match_number_unsigned _ rest _ (str_of_N_spec _) Hrest).
    reflexivity.
  - cbn [app].
    now rewrite (match_number_negative _ rest _ (str_of_N_spec _) Hrest).
Qed.

(** ** The json module: strings *)

Ltac split_tests :=
  repeat match goal with
  | |- context [(?a <=? ?b)%N] => destruct (N.leb_spec a b)
  | |- context [(?a <? ?b)%N] => destruct (N.ltb_spec a b)
  | |- context [(?a =? ?b)%N] => destruct (N.eqb_spec a b)
  end.

(** Settle every comparison in the goal whose value follows from the
    context. *)
Ltac decide_tests :=
  repeat match goal with
  | |- context [(?a <=? ?b)%N] =>
      (replace (a <=? b)%N with true by (symmetry; apply N.leb_le; lia)) ||
      (replace (a <=? b)%N with false by (symmetry; apply N.leb_gt; lia))
  | |- context [(?a <? ?b)%N] =>
      (replace (a <? b)%N with true by (symmetry; apply N.ltb_lt; lia)) ||
      (replace (a <? b)%N with false by (symmetry; apply N.ltb_ge; lia))
  | |- context [(?a =? ?b)%N] =>
      (replace (a =? b)%N with true by (symmetry; apply N.eqb_eq; lia)) ||
      (replace (a =? b)%N with false by (symmetry; apply N.eqb_neq; lia))
  end.

Lemma hexval_hexdigit (d : N) : (d < 16)%N -> hexval (hexdigit d) = Some d.
Proof.
  intros Hd. unfold hexval, hexdigit.
  destruct (N.ltb_spec d 10); split_tests; cbn [andb]; try lia; f_equal; lia.
Qed.

Lemma decode_u_escape (n : N) (tail : str) :
  (n < 65536)%N ->
  exists h1 h2 h3 h4,
    u_escape n ++ tail = 92%N :: 117%N :: h1 :: h2 :: h3 :: h4 :: tail /\
    decode_uXXXX h1 h2 h3 h4 = Some n.
Proof.
  intros Hn. unfold u_escape. do 4 eexists. split; [reflexivity|].
  unfold decode_uXXXX.
  assert (H1 : (n / 4096 < 16)%N) by (apply N.Div0.div_lt_upper_bound; lia).
  pose proof (N.mod_upper_bound (n / 256) 16 ltac:(lia)) as H2.
  pose proof (N.mod_upper_bound (n / 16) 16 ltac:(lia)) as H3.
  pose proof (N.mod_upper_bound n 16 ltac:(lia)) as H4.
  rewrite !hexval_hexdigit by assumption. f_equal.
  pose proof (N.div_mod n 16 ltac:(lia)) as E1.
  pose proof (N.div_mod (n / 16) 16 ltac:(lia)) as E2.
  pose proof (N.div_mod (n / 256) 16 ltac:(lia)) as E3.
  replace (n / 16 / 16)%N with (n / 256)%N in E2
    by (rewrite N.Div0.div_div; reflexivity).
  replace (n / 256 / 16)%N with (n / 4096)%N in E3
    by (rewrite N.Div0.div_div; reflexivity).
  set (a := (n / 4096)%N) in *. set (b := ((n / 256) mod 16)%N) in *.
  set (c := ((n / 16) mod 16)%N) in *. set (d := (n mod 16)%N) in *.
  set (q1 := (n / 16)%N) in *. set (q2 := (n / 256)%N) in *.
  clearbody a b c d q1 q2. lia.
Qed.

(** An escape that is not the first half of a surrogate pair stands for
    its code point, whatever follows. *)
Lemma scanstring_u_plain (h1 h2 h3 h4 uni : N) (tail acc : str) :
  decode_uXXXX h1 h2 h3 h4 = Some uni ->
  is_high_surrogate uni = false ->
  scanstring (92%N :: 117%N :: h1 :: h2 :: h3 :: h4 :: tail) acc =
  scanstring tail (uni :: acc).
Proof.
  intros Hdec Hhigh. cbn [scanstring N.eqb Pos.eqb]. rewrite Hdec.
  destruct tail as [|b [|u [|l1 [|l2 [|l3 [|l4 tail]]]]]];
    rewrite ?Hhigh; reflexivity.
Qed.

Lemma scanstring_u_pair (h1 h2 h3 h4 l1 l2 l3 l4 hi lo : N) (tail acc : str) :
  decode_uXXXX h1 h2 h3 h4 = Some hi ->
  decode_uXXXX l1 l2 l3 l4 = Some lo ->
  is_high_surrogate hi = true ->
  is_low_surrogate lo = true ->
  scanstring (92%N :: 117%N :: h1 :: h2 :: h3 :: h4 ::
              92%N :: 117%N :: l1 :: l2 :: l3 :: l4 :: tail) acc =
  scanstring tail ((65536 + ((hi - 55296) * 1024 + (lo - 56320)))%N :: acc).
Proof.
  intros Hhi Hlo Hhigh Hlow. cbn [scanstring N.eqb Pos.eqb].
  rewrite Hhi, Hhigh. cbn [andb N.eqb Pos.eqb]. rewrite Hlo, Hlow. reflexivity.
Qed.

Lemma is_scalar_range (c : N) :
  is_scalar c = true -> (c < 55296 \/ 57344 <= c < 1114112)%N.
Proof.
  unfold is_scalar. rewrite orb_true_iff, andb_true_iff, N.ltb_lt, N.leb_le, N.ltb_lt.
  tauto.
Qed.

Lemma scanstring_escape_char (c : N) (tail acc : str) :
  is_scalar c = true ->
  scanstring (escape_char c ++ tail) acc = scanstring tail (c :: acc).
Proof.
  intros Hc. apply is_scalar_range in Hc. unfold escape_char.
  destruct (N.eqb_spec c 34) as [->|N34]; [reflexivity|].
  destruct (N.eqb_spec c 92) as [->|N92]; [reflexivity|].
  destruct (N.eqb_spec c 10) as [->|N10]; [reflexivity|].
  destruct (N.eqb_spec c 13) as [->|N13]; [reflexivity|].
  destruct (N.eqb_spec c 9) as [->|N9]; [reflexivity|].
  destruct (N.eqb_spec c 8) as [->|N8]; [reflexivity|].
  destruct (N.eqb_spec c 12) as [->|N12]; [reflexivity|].
  destruct (N.leb_spec 32 c) as [L32|L32];
    [destruct (N.leb_spec c 126) as [L126|L126]|]; cbn [andb].
  - cbn [app scanstring].
    apply N.eqb_neq in N34, N92. rewrite N34, N92.
    destruct (N.ltb_spec c 32); [lia|reflexivity].
  - destruct (N.ltb_spec c 65536) as [Lbmp|Lbmp].
    + destruct (decode_u_escape c tail Lbmp) as [h1 [h2 [h3 [h4 [-> Hdec]]]]].
      apply scanstring_u_plain; [exact Hdec|].
      unfold is_high_surrogate. split_tests; cbn [andb]; try reflexivity; lia.
    + pose proof (N.div_mod (c - 65536) 1024 ltac:(lia)) as Hdm.
      pose proof (N.mod_upper_bound (c - 65536) 1024 ltac:(lia)) as Hlo.
      assert (Hhi : ((c - 65536) / 1024 < 1024)%N)
        by (apply N.Div0.div_lt_upper_bound; lia).
      rewrite (N.mod_small _ _ Hhi).
      set (hi := ((c - 65536) / 1024)%N) in *.
      set (lo := ((c - 65536) mod 1024)%N) in *.
      rewrite <- app_assoc.
      destruct (decode_u_escape (56320 + lo) tail ltac:(lia))
        as [l1 [l2 [l3 [l4 [-> Hdec2]]]]].
      destruct (decode_u_escape (55296 + hi)
                  (92%N :: 117%N :: l1 :: l2 :: l3 :: l4 :: tail) ltac:(lia))
        as [h1 [h2 [h3 [h4 [-> Hdec1]]]]].
      rewrite (scanstring_u_pair _ _ _ _ _ _ _ _ _ _ tail acc Hdec1 Hdec2).
      * f_equal. f_equal. clearbody hi lo. lia.
      * unfold is_high_surrogate. clearbody hi lo.
        split_tests; cbn [andb]; try reflexivity; lia.
      * unfold is_low_surrogate. clearbody hi lo.
        split_tests; cbn [andb]; try reflexivity; lia.
  - destruct (N.ltb_spec c 65536) as [Lbmp|Lbmp]; [|lia].
    destruct (decode_u_escape c tail Lbmp) as [h1 [h2 [h3 [h4 [-> Hdec]]]]].
    apply scanstring_u_plain; [exact Hdec|].
    unfold is_high_surrogate. split_tests; cbn [andb]; try reflexivity; lia.
Qed.

Lemma scanstring_encode (s : str) : forall rest acc,
  forallb is_scalar s = true ->
  scanstring (flat_map escape_char s ++ 34%N :: rest) acc =
  Some (rev acc ++ s, rest).
Proof.
  induction s as [|c s IH]; intros rest acc Hs.
  - cbn [flat_map app scanstring N.eqb Pos.eqb]. now rewrite app_nil_r.
  - cbn [forallb] in Hs. apply andb_true_iff in Hs. destruct Hs as [Hc Hs].
    cbn [flat_map]. rewrite <- app_assoc, (scanstring_escape_char _ _ _ Hc).
    rewrite (IH _ _ Hs). cbn [rev]. now rewrite <- app_assoc.
Qed.

(** ** The json module: values *)

Lemma json_nested_ind (P : json -> Prop) :
  P JNull ->
  (forall b, P (JBool b)) ->
  (forall z, P (JInt z)) ->
  (forall literal, P (JFloat literal)) ->
  (forall s, P (JStr s)) ->
  (forall items, Forall P items -> P (JList items)) ->
  (forall pairs, Forall (fun kv => P (snd kv)) pairs -> P (JDict pairs)) ->
  forall v, P v.
Proof.
  intros HN HB HI HF HS HL HD. fix IH 1.
  intros [|b|z|literal|s|items|pairs].
  - exact HN.
  - apply HB.
  - apply HI.
  - apply HF.
  - apply HS.
  - apply HL. induction items as [|x items IHitems]; constructor.
    + apply IH.
    + exact IHitems.
  - apply HD. induction pairs as [|kv pairs IHpairs]; constructor.
    + apply IH.
    + exact IHpairs.
Qed.

Lemma skip_ws_ws (ws s : str) :
  forallb is_ws ws = true -> skip_ws (ws ++ s) = skip_ws s.
Proof.
  induction ws as [|c ws IH]; intros H; [reflexivity|].
  cbn [forallb] in H. apply andb_true_iff in H. destruct H as [Hc Hws].
  cbn [app skip_ws]. rewrite Hc. exact (IH Hws).
Qed.

Lemma skip_ws_stop (c : char) (s : str) :
  is_ws c = false -> skip_ws (c :: s) = c :: s.
Proof. intros H. cbn [skip_ws]. now rewrite H. Qed.

Lemma value_start_cases (c : char) :
  value_start c = true ->
  is_digit c = true \/ c = 45%N \/ c = 34%N \/ c = 91%N \/ c = 123%N \/
  c = 110%N \/ c = 116%N \/ c = 102%N.
Proof.
  unfold value_start. rewrite !orb_true_iff, !N.eqb_eq. tauto.
Qed.

Lemma value_start_facts (c : char) :
  value_start c = true ->
  is_ws c = false /\ isspace c = false /\ c <> 93%N /\ c <> 125%N.
Proof.
  intros H. apply value_start_cases in H.
  destruct H as [H|[->|[->|[->|[->|[->|[->| ->]]]]]]];
    try (repeat split; (reflexivity || discriminate)).
  apply is_digit_range in H. unfold is_ws, isspace.
  repeat split; try lia; decide_tests; reflexivity.
Qed.

Lemma newline_indent_ws (indent : option nat) (level : nat) :
  forallb is_ws (newline_indent indent level) = true.
Proof.
  destruct indent as [n|]; [|reflexivity]. cbn [newline_indent forallb].
  induction (n * level) as [|k IH]; [reflexivity|exact IH].
Qed.

Lemma item_separator_shape (indent : option nat) (level : nat) :
  exists ws, item_separator indent level = 44%N :: ws /\ forallb is_ws ws = true.
Proof.
  destruct indent as [n|].
  - exists (newline_indent (Some n) level). split; [reflexivity|].
    apply newline_indent_ws.
  - exists [32%N]. split; reflexivity.
Qed.

Lemma terminated_after_ws (ws : str) (c : char) (r : str) :
  forallb is_ws ws = true -> terminated (c :: r) = true ->
  terminated (ws ++ c :: r) = true.
Proof.
  destruct ws as [|w ws]; [auto|]. intros H _.
  cbn [forallb] in H. apply andb_true_iff in H. destruct H as [Hw _].
  unfold is_ws in Hw. rewrite !orb_true_iff, !N.eqb_eq in Hw.
  destruct Hw as [[[-> | ->] | ->] | ->]; reflexivity.
Qed.

Lemma join_cons (sep x : str) (l : list str) :
  join sep (x :: l) = x ++ flat_map (fun t => sep ++ t) l.
Proof.
  revert x. induction l as [|y l IH]; intros x.
  - cbn [join flat_map]. now rewrite app_nil_r.
  - change (join sep (x :: y :: l)) with (x ++ sep ++ join sep (y :: l)).
    rewrite IH. cbn [flat_map]. now rewrite <- app_assoc.
Qed.

Lemma keys_distinct_NoDup (keys : list str) :
  keys_distinct keys = true -> NoDup keys.
Proof.
  induction keys as [|k keys IH]; intros H; constructor.
  - cbn [keys_distinct] in H. apply andb_true_iff in H. destruct H as [H _].
    apply negb_true_iff in H. intros Hin.
    assert (E : existsb (str_eqb k) keys = true).
    { apply existsb_exists. exists k. split; [exact Hin|apply str_eqb_refl]. }
    congruence.
  - apply IH. cbn [keys_distinct] in H. apply andb_true_iff in H. tauto.
Qed.

Lemma dict_set_fresh (k : str) (v : json) (d : list (str * json)) :
  ~ In k (map fst d) -> dict_set k v d = d ++ [(k, v)].
Proof.
  induction d as [|[k' v'] d IH]; intros Hin; [reflexivity|].
  cbn [dict_set]. destruct (str_eqb k k') eqn:E.
  - apply str_eqb_eq in E. subst k'. exfalso. apply Hin. now left.
  - cbn [app]. rewrite IH; [reflexivity|]. intros H. apply Hin. now right.
Qed.

Lemma dict_fold_distinct (pairs : list (str * json)) : forall acc,
  NoDup (map fst (acc ++ pairs)) ->
  fold_left (fun d kv => dict_set (fst kv) (snd kv) d) pairs acc = acc ++ pairs.
Proof.
  induction pairs as [|[k v] pairs IH]; intros acc Hnd.
  - cbn [fold_left]. now rewrite app_nil_r.
  - assert (E : (acc ++ [(k, v)]) ++ pairs = acc ++ (k, v) :: pairs)
      by (now rewrite <- app_assoc).
    cbn [fold_left fst snd]. rewrite dict_set_fresh.
    + rewrite IH; rewrite E; [reflexivity|exact Hnd].
    + rewrite map_app in Hnd. cbn [map fst] in Hnd.
      apply NoDup_remove_2 in Hnd. intros Hin. apply Hnd, in_or_app. now left.
Qed.

Lemma dict_of_pairs_distinct (pairs : list (str * json)) :
  keys_distinct (map fst pairs) = true -> dict_of_pairs pairs = pairs.
Proof.
  intros H. apply keys_distinct_NoDup in H.
  exact (dict_fold_distinct pairs [] H).
Qed.

Lemma parse_elements_S (fuel : nat) (s : str) (acc : list json) :
  parse_elements (S fuel) s acc =
  match parse_value fuel s with
  | None => None
  | Some (v, r) =>
      match skip_ws r with
      | c :: r1 =>
          if (c =? 93)%N then Some (JList (rev (v :: acc)), r1)
          else if (c =? 44)%N then parse_elements fuel (skip_ws r1) (v :: acc)
          else None
      | [] => None
      end
  end.
Proof. reflexivity. Qed.

Lemma parse_members_S (fuel : nat) (s : str) (acc : list (str * json)) :
  parse_members (S fuel) s acc =
  match scanstring s [] with
  | None => None
  | Some (k, r) =>
      match skip_ws r with
      | c :: r1 =>
          if (c =? 58)%N then
            match parse_value fuel (skip_ws r1) with
            | None => None
            | Some (v, r2) =>
                match skip_ws r2 with
                | c2 :: r3 =>
                    if (c2 =? 125)%N then Some (rev ((k, v) :: acc), r3)
                    else if (c2 =? 44)%N then
                      match skip_ws r3 with
                      | c3 :: r4 =>
                          if (c3 =? 34)%N
                          then parse_members fuel r4 ((k, v) :: acc)
                          else None
                      | [] => None
                      end
                    else None
                | [] => None
                end
            end
          else None
      | [] => None
      end
  end.
Proof. reflexivity. Qed.

Lemma encode_head (indent : option nat) (level : nat) (v : json) :
  json_valid v = true ->
  exists c t, encode indent level v = c :: t /\ value_start c = true.
Proof.
  destruct v as [|[|]|z|literal|s|[|x items]|[|kv pairs]]; intros Hv;
    try discriminate Hv;
    try (do 2 eexists; split; [reflexivity|reflexivity]).
  cbn [encode]. destruct z as [|p|p]; unfold str_of_Z.
  1, 2: destruct (decimal_head_digit _ _ (str_of_N_spec (Z.to_N (Z.pos p))))
          as [c [t [E Hc]]] ||
        destruct (decimal_head_digit _ _ (str_of_N_spec (Z.to_N 0)))
          as [c [t [E Hc]]];
        rewrite E; exists c, t; (split; [reflexivity|]);
        unfold value_start; rewrite Hc; reflexivity.
  do 2 eexists. split; reflexivity.
Qed.

Lemma terminated_close (ws : str) (c : char) (rest : str) :
  forallb is_ws ws = true -> (c = 93%N \/ c = 125%N \/ c = 44%N) ->
  terminated (ws ++ c :: rest) = true.
Proof.
  intros Hws Hc. apply terminated_after_ws; [exact Hws|].
  destruct Hc as [->|[->| ->]]; reflexivity.
Qed.

Lemma skip_ws_to_value (ws : str) (indent : option nat) (level : nat)
    (v : json) (more : str) :
  forallb is_ws ws = true -> json_valid v = true ->
  skip_ws (ws ++ encode indent level v ++ more) = encode indent level v ++ more.
Proof.
  intros Hws Hv. rewrite (skip_ws_ws _ _ Hws).
  destruct (encode_head indent level v Hv) as [c [t [-> Hc]]].
  apply skip_ws_stop. now apply value_start_facts.
Qed.

Lemma parse_elements_items (indent : option nat) (level : nat)
    (sepws closews : str) :
  forallb is_ws sepws = true -> forallb is_ws closews = true ->
  forall l x acc fuel rest,
    Forall (fun y => json_valid y = true -> forall i lv, parses i lv y) (x :: l) ->
    forallb json_valid (x :: l) = true ->
    list_sum (map (fun y => S (json_size y)) (x :: l)) <= fuel ->
    parse_elements fuel
      (encode indent level x ++
       flat_map (fun t => 44%N :: sepws ++ t) (map (encode indent level) l) ++
       closews ++ 93%N :: rest) acc =
    Some (JList (rev acc ++ x :: l), rest).
Proof.
  intros Hsep Hclose.
  induction l as [|y l IH]; intros x acc fuel rest Hall Hvalid Hfuel;
    inversion Hall as [|? ? Hx Hl]; subst;
    cbn [forallb] in Hvalid; apply andb_true_iff in Hvalid;
    destruct Hvalid as [Hvx Hvl];
    cbn [map list_sum fold_right] in Hfuel;
    (destruct fuel as [|fuel]; [lia|]);
    rewrite parse_elements_S.
  - cbn [map flat_map app].
    rewrite (Hx Hvx indent level fuel (closews ++ 93%N :: rest));
      [|lia|apply terminated_close; auto].
    rewrite (skip_ws_ws _ _ Hclose), skip_ws_stop by reflexivity.
    cbn [N.eqb Pos.eqb rev]. reflexivity.
  - cbn [map flat_map]. rewrite <- !app_assoc. cbn [app].
    rewrite (Hx Hvx indent level fuel); [|lia|reflexivity].
    rewrite skip_ws_stop by reflexivity. cbn [N.eqb Pos.eqb].
    rewrite <- !app_assoc.
    rewrite (skip_ws_to_value sepws indent level y); [|exact Hsep|].
    + rewrite (IH y (x :: acc) fuel rest Hl Hvl);
        [|cbn [map list_sum fold_right]; lia].
      cbn [rev]. now rewrite <- app_assoc.
    + cbn [forallb] in Hvl. apply andb_true_iff in Hvl. tauto.
Qed.

Lemma skip_space_to_value (indent : option nat) (level : nat) (v : json) (more : str) :
  json_valid v = true ->
  skip_ws (32%N :: encode indent level v ++ more) = encode indent level v ++ more.
Proof. intros Hv. exact (skip_ws_to_value [32%N] indent level v more eq_refl Hv). Qed.

Lemma member_text (indent : option nat) (level : nat) (kv : str * json) (more : str) :
  encode_str (fst kv) ++ py ": " ++ encode indent level (snd kv) ++ more =
  34%N :: flat_map escape_char (fst kv) ++
  34%N :: 58%N :: 32%N :: encode indent level (snd kv) ++ more.
Proof.
  unfold encode_str. change (py ": ") with [58%N; 32%N].
  cbn [app]. rewrite <- !app_assoc. reflexivity.
Qed.

Lemma parse_members_pairs (indent : option nat) (level : nat)
    (sepws closews : str) :
  forallb is_ws sepws = true -> forallb is_ws closews = true ->
  forall l kv acc fuel rest,
    Forall (fun p => json_valid (snd p) = true -> forall i lv, parses i lv (snd p))
           (kv :: l) ->
    forallb (fun p => forallb is_scalar (fst p) && json_valid (snd p)) (kv :: l)
      = true ->
    list_sum (map (fun p => S (json_size (snd p))) (kv :: l)) <= fuel ->
    parse_members fuel
      (flat_map escape_char (fst kv) ++
       34%N :: 58%N :: 32%N :: encode indent level (snd kv) ++
       flat_map (fun t => 44%N :: sepws ++ t)
         (map (fun p => encode_str (fst p) ++ py ": " ++
                        encode indent level (snd p)) l) ++
       closews ++ 125%N :: rest) acc =
    Some (rev acc ++ kv :: l, rest).
Proof.
  intros Hsep Hclose.
  induction l as [|y l IH]; intros [k v] acc fuel rest Hall Hvalid Hfuel;
    inversion Hall as [|? ? Hx Hl]; subst;
    cbn [forallb] in Hvalid; apply andb_true_iff in Hvalid;
    destruct Hvalid as [Hvx Hvl];
    apply andb_true_iff in Hvx; destruct Hvx as [Hk Hv];
    cbn [fst snd] in *;
    cbn [map list_sum fold_right] in Hfuel;
    (destruct fuel as [|fuel]; [lia|]);
    rewrite parse_members_S, (scanstring_encode k _ [] Hk);
    cbn [rev app]; rewrite skip_ws_stop by reflexivity;
    cbn [N.eqb Pos.eqb];
    rewrite (skip_space_to_value indent level v _ Hv).
  - cbn [map flat_map app].
    rewrite (Hx Hv indent level fuel (closews ++ 125%N :: rest));
      [|cbn [snd] in Hfuel; lia|apply terminated_close; auto].
    rewrite (skip_ws_ws _ _ Hclose), skip_ws_stop by reflexivity.
    cbn [N.eqb Pos.eqb rev app]. reflexivity.
  - cbn [map flat_map app]. rewrite <- !app_assoc. cbn [app].
    rewrite <- ?app_assoc, member_text.
    rewrite (Hx Hv indent level fuel); [|cbn [snd] in Hfuel; lia|reflexivity].
    rewrite skip_ws_stop by reflexivity. cbn [N.eqb Pos.eqb].
    rewrite (skip_ws_ws _ _ Hsep), skip_ws_stop by reflexivity.
    cbn [N.eqb Pos.eqb].
    rewrite (IH y ((k, v) :: acc) fuel rest Hl Hvl);
      [|cbn [map list_sum fold_right]; lia].
    cbn [rev]. now rewrite <- app_assoc.
Qed.

Lemma parse_value_S (fuel : nat) (c : char) (s' : str) :
  parse_value (S fuel) (c :: s') =
  if (c =? 34)%N then
    match scanstring s' [] with
    | Some (k, r) => Some (JStr k, r)
    | None => None
    end
  else if (c =? 123)%N then
    match skip_ws s' with
    | c1 :: r1 =>
        if (c1 =? 125)%N then Some (JDict [], r1)
        else if (c1 =? 34)%N then
          match parse_members fuel r1 [] with
          | Some (pairs, r) => Some (JDict (dict_of_pairs pairs), r)
          | None => None
          end
        else None
    | [] => None
    end
  else if (c =? 91)%N then
    match skip_ws s' with
    | c1 :: r1 =>
        if (c1 =? 93)%N then Some (JList [], r1)
        else parse_elements fuel (c1 :: r1) []
    | [] => None
    end
  else if startswith (c :: s') (py "null") then Some (JNull, skipn 4 (c :: s'))
  else if startswith (c :: s') (py "true") then Some (JBool true, skipn 4 (c :: s'))
  else if startswith (c :: s') (py "false") then Some (JBool false, skipn 5 (c :: s'))
  else
    match match_number (c :: s') with
    | Some r => Some r
    | None =>
        if startswith (c :: s') (py "NaN")
        then Some (JFloat (py "NaN"), skipn 3 (c :: s'))
        else if startswith (c :: s') (py "Infinity")
        then Some (JFloat (py "Infinity"), skipn 8 (c :: s'))
        else if startswith (c :: s') (py "-Infinity")
        then Some (JFloat (py "-Infinity"), skipn 9 (c :: s'))
        else None
    end.
Proof. reflexivity. Qed.

Lemma startswith_head_mismatch (c p : char) (s' ptail : str) :
  p <> c -> startswith (c :: s') (p :: ptail) = false.
Proof.
  intros H. cbn [startswith]. rewrite (char_eqb_neq _ _ H). reflexivity.
Qed.

Lemma parse_value_number (fuel : nat) (c : char) (t : str) (r : json * str) :
  is_digit c = true \/ c = 45%N ->
  match_number (c :: t) = Some r ->
  parse_value (S fuel) (c :: t) = Some r.
Proof.
  intros Hc Hnum.
  assert (Hrange : (45 <= c <= 57)%N).
  { destruct Hc as [Hc| ->]; [apply is_digit_range in Hc|]; lia. }
  rewrite parse_value_S, Hnum.
  destruct (N.eqb_spec c 34); [lia|].
  destruct (N.eqb_spec c 123); [lia|].
  destruct (N.eqb_spec c 91); [lia|].
  change (py "null") with [110; 117; 108; 108]%N.
  change (py "true") with [116; 114; 117; 101]%N.
  change (py "false") with [102; 97; 108; 115; 101]%N.
  rewrite !startswith_head_mismatch by lia. reflexivity.
Qed.

Lemma parse_encode_int (indent : option nat) (level : nat) (z : Z) :
  parses indent level (JInt z).
Proof.
  intros fuel rest Hfuel Hrest. cbn [encode].
  destruct fuel as [|fuel]; [cbn [json_size] in Hfuel; lia|].
  pose proof (match_number_str_of_Z z rest Hrest) as Hnum.
  destruct (encode_head indent level (JInt z) eq_refl) as [c [t [E Hc]]].
  cbn [encode] in E. rewrite E in *. cbn [app] in *.
  apply parse_value_number; [|exact Hnum].
  destruct z as [|p|p]; unfold str_of_Z in E.
  - destruct (decimal_head_digit _ _ (str_of_N_spec (Z.to_N 0))) as [c' [t' [E' Hd]]].
    rewrite E' in E. injection E as -> _. now left.
  - destruct (decimal_head_digit _ _ (str_of_N_spec (Z.to_N (Z.pos p))))
      as [c' [t' [E' Hd]]].
    rewrite E' in E. injection E as -> _. now left.
  - injection E as <- _. now right.
Qed.

Lemma parse_encode_str (indent : option nat) (level : nat) (s : str) :
  forallb is_scalar s = true -> parses indent level (JStr s).
Proof.
  intros Hs fuel rest Hfuel _. cbn [encode].
  destruct fuel as [|fuel]; [cbn [json_size] in Hfuel; lia|].
  unfold encode_str. cbn [app]. rewrite parse_value_S. cbn [N.eqb Pos.eqb].
  rewrite <- app_assoc. cbn [app].
  rewrite (scanstring_encode s rest [] Hs). reflexivity.
Qed.

Lemma encode_list_text (indent : option nat) (level : nat) (x : json)
    (l : list json) (sepws rest : str) :
  item_separator indent (S level) = 44%N :: sepws ->
  encode indent level (JList (x :: l)) ++ rest =
  91%N :: newline_indent indent (S level) ++
  encode indent (S level) x ++
  flat_map (fun t => 44%N :: sepws ++ t) (map (encode indent (S level)) l) ++
  newline_indent indent level ++ 93%N :: rest.
Proof.
  intros Esep. cbn [encode]. rewrite Esep. cbn [map]. rewrite join_cons.
  change (py "[") with [91%N]. change (py "]") with [93%N].
  cbn [app]. rewrite <- !app_assoc. reflexivity.
Qed.

Lemma encode_dict_text (indent : option nat) (level : nat) (kv : str * json)
    (l : list (str * json)) (sepws rest : str) :
  item_separator indent (S level) = 44%N :: sepws ->
  encode indent level (JDict (kv :: l)) ++ rest =
  123%N :: newline_indent indent (S level) ++
  34%N :: flat_map escape_char (fst kv) ++
  34%N :: 58%N :: 32%N :: encode indent (S level) (snd kv) ++
  flat_map (fun t => 44%N :: sepws ++ t)
    (map (fun p => encode_str (fst p) ++ py ": " ++
                   encode indent (S level) (snd p)) l) ++
  newline_indent indent level ++ 125%N :: rest.
Proof.
  intros Esep. cbn [encode]. rewrite Esep. cbn [map]. rewrite join_cons.
  change (py "{") with [123%N]. change (py "}") with [125%N].
  cbn [app]. rewrite <- !app_assoc, member_text. reflexivity.
Qed.

(** Every valid value is read back by the decoder from its serialization,
    at every indentation. *)
Lemma parse_encode (v : json) :
  json_valid v = true -> forall indent level, parses indent level v.
Proof.
  induction v as [|b|z|literal|s|items IH|pairs IH] using json_nested_ind;
    intros Hv indent level.
  - intros [|fuel] rest Hfuel _; [cbn [json_size] in Hfuel; lia|reflexivity].
  - intros [|fuel] rest Hfuel _; [cbn [json_size] in Hfuel; lia|].
    destruct b; reflexivity.
  - apply parse_encode_int.
  - discriminate Hv.
  - apply parse_encode_str. exact Hv.
  - intros fuel rest Hfuel _. cbn [json_size] in Hfuel.
    destruct fuel as [|fuel]; [lia|].
    destruct items as [|x l]; [reflexivity|].
    destruct (item_separator_shape indent (S level)) as [sepws [Esep Hsep]].
    rewrite (encode_list_text indent level x l sepws rest Esep), parse_value_S.
    cbn [N.eqb Pos.eqb]. cbn [json_valid] in Hv.
    assert (Hvx : json_valid x = true)
      by (cbn [forallb] in Hv; apply andb_true_iff in Hv; tauto).
    rewrite (skip_ws_to_value _ indent (S level) x _
               (newline_indent_ws indent (S level)) Hvx).
    pose proof (parse_elements_items indent (S level) sepws
                  (newline_indent indent level) Hsep
                  (newline_indent_ws indent level) l x [] fuel rest IH Hv)
      as Hparse.
    destruct (encode_head indent (S level) x Hvx) as [c [t [E Hc]]].
    rewrite E in *. cbn [app] in *.
    destruct (value_start_facts c Hc) as [_ [_ [N93 _]]].
    apply N.eqb_neq in N93. rewrite N93.
    apply Hparse. lia.
  - intros fuel rest Hfuel _. cbn [json_size] in Hfuel.
    destruct fuel as [|fuel]; [lia|].
    destruct pairs as [|kv l]; [reflexivity|].
    destruct (item_separator_shape indent (S level)) as [sepws [Esep Hsep]].
    rewrite (encode_dict_text indent level kv l sepws rest Esep), parse_value_S.
    cbn [N.eqb Pos.eqb]. cbn [json_valid] in Hv.
    apply andb_true_iff in Hv. destruct Hv as [Hkeys Hv].
    rewrite (skip_ws_ws _ _ (newline_indent_ws indent (S level))).
    rewrite skip_ws_stop by reflexivity. cbn [N.eqb Pos.eqb].
    rewrite (parse_members_pairs indent (S level) sepws
               (newline_indent indent level) Hsep
               (newline_indent_ws indent level) l kv [] fuel rest IH Hv);
      [|lia].
    cbn [rev app]. now rewrite (dict_of_pairs_distinct _ Hkeys).
Qed.

Lemma json_size_le_length (v : json) :
  json_valid v = true ->
  forall indent level, json_size v <= length (encode indent level v).
Proof.
  induction v as [|b|z|literal|s|items IH|pairs IH] using json_nested_ind;
    intros Hv indent level;
    try (destruct (encode_head indent level _ Hv) as [c [t [-> _]]];
         cbn [json_size length]; lia).
  - destruct items as [|x l]; [cbn; lia|].
    destruct (item_separator_shape indent (S level)) as [sepws [Esep _]].
    rewrite <- (app_nil_r (encode indent level (JList (x :: l)))).
    rewrite (encode_list_text indent level x l sepws [] Esep).
    cbn [json_size length]. rewrite !length_app. cbn [length].
    cbn [json_valid] in Hv.
    assert (G : forall l', Forall (fun y => json_valid y = true ->
                  forall i lv, json_size y <= length (encode i lv y)) l' ->
                forallb json_valid l' = true ->
                list_sum (map (fun y => S (json_size y)) l') <=
                length (flat_map (fun t => 44%N :: sepws ++ t)
                          (map (encode indent (S level)) l'))).
    { induction l' as [|y l' IHl]; intros Hall Hval; [cbn; lia|].
      inversion Hall as [|? ? Hy Hl']; subst.
      cbn [forallb] in Hval. apply andb_true_iff in Hval. destruct Hval as [Hvy Hvl].
      cbn [map list_sum fold_right flat_map]. rewrite length_app. cbn [length].
      rewrite length_app. specialize (Hy Hvy indent (S level)).
      specialize (IHl Hl' Hvl). unfold list_sum in IHl. lia. }
    inversion IH as [|? ? Hx Hl]; subst.
    cbn [forallb] in Hv. apply andb_true_iff in Hv. destruct Hv as [Hvx Hvl].
    specialize (Hx Hvx indent (S level)). specialize (G l Hl Hvl).
    cbn [map list_sum fold_right]. unfold list_sum in G. lia.
  - destruct pairs as [|kv l]; [cbn; lia|].
    destruct (item_separator_shape indent (S level)) as [sepws [Esep _]].
    rewrite <- (app_nil_r (encode indent level (JDict (kv :: l)))).
    rewrite (encode_dict_text indent level kv l sepws [] Esep).
    cbn [json_size].
    repeat (progress (cbn [length]; rewrite ?length_app)).
    cbn [json_valid] in Hv. apply andb_true_iff in Hv. destruct Hv as [_ Hv].
    assert (G : forall l', Forall (fun p => json_valid (snd p) = true ->
                  forall i lv, json_size (snd p) <= length (encode i lv (snd p))) l' ->
                forallb (fun p => forallb is_scalar (fst p) && json_valid (snd p)) l'
                  = true ->
                list_sum (map (fun p => S (json_size (snd p))) l') <=
                length (flat_map (fun t => 44%N :: sepws ++ t)
                          (map (fun p => encode_str (fst p) ++ py ": " ++
                                  encode indent (S level) (snd p)) l'))).
    { induction l' as [|y l' IHl]; intros Hall Hval; [cbn; lia|].
      inversion Hall as [|? ? Hy Hl']; subst.
      cbn [forallb] in Hval. apply andb_true_iff in Hval. destruct Hval as [Hvy Hvl].
      apply andb_true_iff in Hvy. destruct Hvy as [_ Hvy].
      cbn [map list_sum fold_right flat_map]. rewrite length_app. cbn [length].
      rewrite !length_app. specialize (Hy Hvy indent (S level)).
      specialize (IHl Hl' Hvl). unfold list_sum in IHl. lia. }
    inversion IH as [|? ? Hx Hl]; subst.
    cbn [forallb] in Hv. apply andb_true_iff in Hv. destruct Hv as [Hvx Hvl].
    apply andb_true_iff in Hvx. destruct Hvx as [_ Hvx].
    specialize (Hx Hvx indent (S level)). specialize (G l Hl Hvl).
    cbn [map list_sum fold_right]. unfold list_sum in G. lia.
Qed.

(** [json.loads(json.dumps(v, indent=...)) == v] for every valid value. *)
Lemma json_loads_encode (v : json) (indent : option nat) :
  json_valid v = true -> json_loads (encode indent 0 v) = Return v.
Proof.
  intros Hv. unfold json_loads.
  pose proof (skip_ws_to_value [] indent 0 v [] eq_refl Hv) as Hskip.
  cbn [app] in Hskip. rewrite app_nil_r in Hskip. rewrite Hskip.
  pose proof (parse_encode v Hv indent 0 (S (length (encode indent 0 v))) []) as H.
  rewrite app_nil_r in H. rewrite H; [reflexivity| |reflexivity].
  pose proof (json_size_le_length v Hv indent 0). lia.
Qed.

(** ** What the decoder builds *)

Lemma json_valid_of (v : json) :
  json_plain v = true -> keys_ok v = true -> json_valid v = true.
Proof.
  induction v as [|b|z|literal|s|items IH|pairs IH] using json_nested_ind;
    cbn [json_plain keys_ok json_valid]; intros Hp Hk; auto.
  - induction items as [|x l IHl]; [reflexivity|].
    inversion IH as [|? ? Hx Hl]; subst. cbn [forallb] in *.
    apply andb_true_iff in Hp, Hk. apply andb_true_iff. split.
    + apply Hx; tauto.
    + apply IHl; tauto.
  - apply andb_true_iff in Hk. destruct Hk as [Hkeys Hk].
    rewrite Hkeys. cbn [andb]. clear Hkeys.
    induction pairs as [|kv l IHl]; [reflexivity|].
    inversion IH as [|? ? Hx Hl]; subst. cbn [forallb] in *.
    apply andb_true_iff in Hp, Hk. destruct Hp as [Hp Hpl].
    apply andb_true_iff in Hp. destruct Hp as [Hs Hp].
    rewrite Hs. cbn [andb]. apply andb_true_iff. split.
    + apply Hx; tauto.
    + apply IHl; tauto.
Qed.

Lemma NoDup_keys_distinct (keys : list str) :
  NoDup keys -> keys_distinct keys = true.
Proof.
  induction 1 as [|k keys Hin _ IH]; [reflexivity|].
  cbn [keys_distinct]. rewrite IH, andb_true_r. apply negb_true_iff.
  destruct (existsb (str_eqb k) keys) eqn:E; [|reflexivity].
  apply existsb_exists in E. destruct E as [k' [Hk' E]].
  apply str_eqb_eq in E. subst k'. contradiction.
Qed.

Lemma dict_set_keys (k : str) (v : json) (d : list (str * json)) :
  map fst (dict_set k v d) = map fst d \/
  (~ In k (map fst d) /\ map fst (dict_set k v d) = map fst d ++ [k]).
Proof.
  induction d as [|[k' v'] d IH].
  - right. split; [tauto|reflexivity].
  - cbn [dict_set]. destruct (str_eqb k k') eqn:E.
    + apply str_eqb_eq in E. subst k'. left. reflexivity.
    + cbn [map fst]. destruct IH as [IH|[Hin IH]].
      * left. now rewrite IH.
      * right. split; [|now rewrite IH].
        intros [H|H]; [|tauto]. subst k'. rewrite str_eqb_refl in E. discriminate.
Qed.

Lemma dict_set_values (P : json -> Prop) (k : str) (v : json) (d : list (str * json)) :
  P v -> Forall (fun kv => P (snd kv)) d ->
  Forall (fun kv => P (snd kv)) (dict_set k v d).
Proof.
  intros Hv. induction 1 as [|[k' v'] d Hkv Hd IH].
  - repeat constructor. exact Hv.
  - cbn [dict_set]. destruct (str_eqb k k'); constructor; auto.
Qed.

Lemma dict_of_pairs_ok (P : json -> Prop) (pairs : list (str * json)) :
  Forall (fun kv => P (snd kv)) pairs ->
  NoDup (map fst (dict_of_pairs pairs)) /\
  Forall (fun kv => P (snd kv)) (dict_of_pairs pairs).
Proof.
  unfold dict_of_pairs. intros Hpairs.
  assert (G : forall acc,
    NoDup (map fst acc) -> Forall (fun kv => P (snd kv)) acc ->
    NoDup (map fst (fold_left (fun d kv => dict_set (fst kv) (snd kv) d) pairs acc)) /\
    Forall (fun kv => P (snd kv))
      (fold_left (fun d kv => dict_set (fst kv) (snd kv) d) pairs acc)).
  { induction Hpairs as [|[k v] pairs Hkv Hrest IH]; intros acc Hnd Hacc.
    - cbn [fold_left]. auto.
    - cbn [fold_left fst snd]. apply IH.
      + destruct (dict_set_keys k v acc) as [->|[Hin ->]]; [exact Hnd|].
        apply NoDup_app; [exact Hnd|repeat constructor; tauto|].
        intros x Hx [<-|[]]. contradiction.
      + apply dict_set_values; assumption. }
  apply G; constructor.
Qed.

Lemma keys_ok_dict (pairs : list (str * json)) :
  forallb (fun kv => keys_ok (snd kv)) pairs = true ->
  keys_ok (JDict (dict_of_pairs pairs)) = true.
Proof.
  intros H. cbn [keys_ok].
  destruct (dict_of_pairs_ok (fun v => keys_ok v = true) pairs) as [Hnd Hvals].
  - apply Forall_forall. intros kv Hin.
    rewrite forallb_forall in H. exact (H kv Hin).
  - apply andb_true_iff. split; [now apply NoDup_keys_distinct|].
    apply forallb_forall. rewrite Forall_forall in Hvals. exact Hvals.
Qed.

Lemma forallb_rev_cons {A : Type} (f : A -> bool) (x : A) (acc : list A) :
  f x = true -> forallb f acc = true -> forallb f (rev (x :: acc)) = true.
Proof.
  intros Hx Hacc. apply forallb_forall. intros y Hy.
  apply in_rev in Hy. destruct Hy as [<-|Hy]; [exact Hx|].
  rewrite forallb_forall in Hacc. exact (Hacc y Hy).
Qed.

Lemma match_number_keys_ok (s : str) (v : json) (r : str) :
  match_number s = Some (v, r) -> keys_ok v = true.
Proof.
  unfold match_number.
  destruct (match s with
            | [] => ([], s)
            | c :: s' => if (c =? 45)%N then ([c], s') else ([], s)
            end) as [sign s0].
  destruct (match_int_part s0) as [[int_digits s1]|]; [|discriminate].
  destruct (match_frac_part s1) as [frac s2].
  destruct (match_exp_part s2) as [exp s3].
  destruct frac, exp; intros H; injection H as <- _; reflexivity.
Qed.

Ltac break_match H :=
  repeat (match type of H with
          | context [match ?x with _ => _ end] => destruct x eqn:?
          end; try discriminate H).

(** Every object the decoder builds has distinct keys. *)
Lemma parse_keys_ok (fuel : nat) :
  (forall s v r, parse_value fuel s = Some (v, r) -> keys_ok v = true) /\
  (forall s acc v r,
      forallb keys_ok acc = true ->
      parse_elements fuel s acc = Some (v, r) -> keys_ok v = true) /\
  (forall s acc pairs r,
      forallb (fun kv => keys_ok (snd kv)) acc = true ->
      parse_members fuel s acc = Some (pairs, r) ->
      forallb (fun kv => keys_ok (snd kv)) pairs = true).
Proof.
  induction fuel as [|fuel [IHv [IHe IHm]]].
  - repeat split; intros; discriminate.
  - split; [|split].
    + intros [|c s'] v r H; [discriminate|].
      rewrite parse_value_S in H. break_match H;
        try (inversion H; subst; reflexivity).
      * inversion H; subst. apply keys_ok_dict.
        eapply (IHm _ []); [reflexivity|eassumption].
      * eapply (IHe _ []); [reflexivity|eassumption].
      * inversion H; subst. eapply match_number_keys_ok. eassumption.
    + intros s acc v r Hacc H. rewrite parse_elements_S in H.
      break_match H.
      * injection H as <- <-. cbn [keys_ok].
        apply forallb_rev_cons; [|exact Hacc]. eapply IHv. eassumption.
      * eapply IHe; [|exact H]. cbn [forallb]. apply andb_true_iff.
        split; [|exact Hacc]. eapply IHv. eassumption.
    + intros s acc pairs r Hacc H. rewrite parse_members_S in H.
      break_match H.
      * injection H as <- <-.
        apply (forallb_rev_cons (fun kv => keys_ok (snd kv))); [|exact Hacc].
        cbn [snd]. eapply IHv. eassumption.
      * eapply IHm; [|exact H]. cbn [forallb snd]. apply andb_true_iff.
        split; [|exact Hacc]. eapply IHv. eassumption.
Qed.

Lemma json_loads_keys_ok (s : str) (v : json) :
  json_loads s = Return v -> keys_ok v = true.
Proof.
  unfold json_loads. intros H. break_match H.
  injection H as <-. eapply (proj1 (parse_keys_ok _)). eassumption.
Qed.

(** ** The decoder's fuel is never what makes it fail *)

Lemma skip_ws_length (s : str) : length (skip_ws s) <= length s.
Proof.
  induction s as [|c s IH]; [reflexivity|].
  cbn [skip_ws]. destruct (is_ws c); cbn [length]; lia.
Qed.

Lemma skip_ws_cons_length (s : str) (c : char) (r : str) :
  skip_ws s = c :: r -> length r < length s.
Proof.
  intros H. pose proof (skip_ws_length s) as L. rewrite H in L.
  cbn [length] in L. lia.
Qed.

Lemma scanstring_length (n : nat) : forall s acc k r,
  length s <= n -> scanstring s acc = Some (k, r) -> length r < length s.
Proof.
  induction n as [|n IH]; intros s acc k r Hn H.
  - destruct s; [discriminate H|cbn [length] in Hn; lia].
  - destruct s as [|c s1]; [discriminate H|].
    cbn [scanstring] in H. cbn [length] in *.
    break_match H; subst; cbn [length] in *;
      try (injection H as <- <-; lia);
      try (apply IH in H; cbn [length] in *; lia).
Qed.

Lemma span_digits_split (s : str) :
  s = fst (span_digits s) ++ snd (span_digits s).
Proof.
  induction s as [|c s IH]; [reflexivity|].
  cbn [span_digits]. destruct (is_digit c); [|reflexivity].
  destruct (span_digits s) as [d r]. cbn [fst snd app] in *. now rewrite <- IH.
Qed.

Lemma span_digits_length (s d r : str) :
  span_digits s = (d, r) -> length r <= length s.
Proof.
  intros H. rewrite (span_digits_split s), H. cbn [fst snd].
  rewrite length_app. lia.
Qed.

Lemma match_frac_part_length (s d r : str) :
  match_frac_part s = (d, r) -> length r <= length s.
Proof.
  unfold match_frac_part. intros H. break_match H;
    try (injection H as <- <-; cbn [length]; lia);
    injection H as <- <-;
    match goal with E : span_digits _ = _ |- _ =>
      apply span_digits_length in E; cbn [length] in *; lia end.
Qed.

Lemma match_exp_part_length (s d r : str) :
  match_exp_part s = (d, r) -> length r <= length s.
Proof.
  unfold match_exp_part. destruct s as [|c s']; [intros H; injection H as _ <-; lia|].
  destruct ((c =? 101) || (c =? 69))%N; [|intros H; injection H as _ <-; lia].
  destruct (match s' with
            | [] => ([], s')
            | g :: t => if ((g =? 45) || (g =? 43))%N then ([g], t) else ([], s')
            end) as [sign s''] eqn:Esign.
  assert (L : length s'' <= length s').
  { destruct s' as [|g t]; [injection Esign as _ <-; lia|].
    destruct ((g =? 45) || (g =? 43))%N; injection Esign as _ <-;
      cbn [length]; lia. }
  destruct (span_digits s'') as [ds rs] eqn:Espan.
  apply span_digits_length in Espan.
  destruct ds; intros H; injection H as _ <-; cbn [length]; lia.
Qed.

Lemma match_int_part_length (s d r : str) :
  match_int_part s = Some (d, r) -> length r < length s.
Proof.
  unfold match_int_part. intros H. break_match H;
    try (injection H as <- <-; cbn [length]; lia);
    injection H as <- <-;
    match goal with E : span_digits _ = _ |- _ =>
      apply span_digits_length in E; cbn [length] in *; lia end.
Qed.

Lemma match_number_length (s : str) (v : json) (r : str) :
  match_number s = Some (v, r) -> length r < length s.
Proof.
  unfold match_number.
  destruct (match s with
            | [] => ([], s)
            | c :: s' => if (c =? 45)%N then ([c], s') else ([], s)
            end) as [sign s0] eqn:Esign.
  assert (L0 : length s0 <= length s).
  { destruct s as [|c s']; [injection Esign as _ <-; lia|].
    destruct (c =? 45)%N; injection Esign as _ <-; cbn [length]; lia. }
  destruct (match_int_part s0) as [[int_digits s1]|] eqn:E1; [|discriminate].
  apply match_int_part_length in E1.
  destruct (match_frac_part s1) as [frac s2] eqn:E2.
  apply match_frac_part_length in E2.
  destruct (match_exp_part s2) as [exp s3] eqn:E3.
  apply match_exp_part_length in E3.
  destruct frac, exp; intros H; injection H as _ <-; lia.
Qed.

(** The lengths consumed by the scanners whose results are recorded in
    the context. *)
Ltac consumed_facts :=
  repeat match goal with
  | E : skip_ws ?s = _ :: _ |- _ =>
      lazymatch goal with
      | _ : length _ < length s |- _ => fail
      | _ => pose proof (skip_ws_cons_length _ _ _ E)
      end
  | E : scanstring ?s _ = Some _ |- _ =>
      lazymatch goal with
      | _ : length _ < length s |- _ => fail
      | _ => pose proof (scanstring_length (length s) _ _ _ _ (le_n _) E)
      end
  | E : match_number ?s = Some _ |- _ =>
      lazymatch goal with
      | _ : length _ < length s |- _ => fail
      | _ => pose proof (match_number_length _ _ _ E)
      end
  | E : startswith ?s ?p = true |- _ =>
      lazymatch goal with
      | _ : length p <= length s |- _ => fail
      | _ => pose proof (startswith_length _ _ E)
      end
  end.

(** Replay, in the goal, the decisions recorded in the context. *)
Ltac replay :=
  repeat match goal with
  | E : ?x = _ |- context [?x] => rewrite E
  end.

Lemma parse_value_fuel_step (fuel : nat) :
  (forall s acc pairs r, parse_members fuel s acc = Some (pairs, r) ->
     enough_fuel (fun f s => parse_members f s acc) s pairs r) ->
  (forall s acc v r, parse_elements fuel s acc = Some (v, r) ->
     enough_fuel (fun f s => parse_elements f s acc) s v r) ->
  forall s v r, parse_value (S fuel) s = Some (v, r) ->
    enough_fuel parse_value s v r.
Proof.
  intros IHm IHe [|c s'] v r H; [discriminate|].
  rewrite parse_value_S in H. unfold enough_fuel.
  pose proof (length_skipn 3 (c :: s')) as L3.
  pose proof (length_skipn 4 (c :: s')) as L4.
  pose proof (length_skipn 5 (c :: s')) as L5.
  pose proof (length_skipn 8 (c :: s')) as L8.
  pose proof (length_skipn 9 (c :: s')) as L9.
  set (rest3 := skipn 3 (c :: s')) in *. set (rest4 := skipn 4 (c :: s')) in *.
  set (rest5 := skipn 5 (c :: s')) in *. set (rest8 := skipn 8 (c :: s')) in *.
  set (rest9 := skipn 9 (c :: s')) in *.
  break_match H.
  all: try (match type of H with Some _ = Some _ =>
              first [injection H as <- <- | injection H as ->] end).
  all: repeat match goal with
    | E : parse_members _ _ _ = Some _ |- _ => apply IHm in E; destruct E
    | E : parse_elements _ _ _ = Some _ |- _ => apply IHe in E; destruct E
    end.
  all: consumed_facts.
  all: repeat match goal with
    | E : length (py _) <= _ |- _ => cbn [py length map list_ascii_of_string] in E
    end.
  all: cbn [length] in *.
  all: split; [lia|].
  all: intros [|f'] Hf'; [lia|].
  all: rewrite parse_value_S; replay; try reflexivity.
  - match goal with
    | E : forall f, _ -> parse_members f _ _ = _ |- _ => rewrite E by lia
    end. reflexivity.
  - match goal with
    | E : forall f, _ -> parse_elements f _ _ = _ |- _ => rewrite E by lia
    end. reflexivity.
Qed.

Ltac skip_ws_bounds :=
  repeat match goal with
  | _ : context [length (skip_ws ?x)] |- _ =>
      lazymatch goal with
      | _ : length (skip_ws x) <= length x |- _ => fail
      | _ => pose proof (skip_ws_length x)
      end
  end.

Ltac use_fuel :=
  repeat match goal with
  | E : forall f : nat, _ <= f -> _ = _ |- _ => rewrite E by lia
  end.

Lemma parse_elements_fuel_step (fuel : nat) :
  (forall s v r, parse_value fuel s = Some (v, r) ->
     enough_fuel parse_value s v r) ->
  (forall s acc v r, parse_elements fuel s acc = Some (v, r) ->
     enough_fuel (fun f s => parse_elements f s acc) s v r) ->
  forall s acc v r, parse_elements (S fuel) s acc = Some (v, r) ->
    enough_fuel (fun f s => parse_elements f s acc) s v r.
Proof.
  intros IHv IHe s acc v r H.
  rewrite parse_elements_S in H. unfold enough_fuel. break_match H.
  all: try (match type of H with Some _ = Some _ => injection H as <- <- end).
  all: repeat match goal with
    | E : parse_value _ _ = Some _ |- _ => apply IHv in E; destruct E
    | E : parse_elements _ _ _ = Some _ |- _ => apply IHe in E; destruct E
    end.
  all: consumed_facts; skip_ws_bounds.
  all: split; [lia|].
  all: intros [|f'] Hf'; [lia|].
  all: rewrite parse_elements_S; repeat (progress (replay; use_fuel)).
  all: reflexivity.
Qed.

Lemma parse_members_fuel_step (fuel : nat) :
  (forall s v r, parse_value fuel s = Some (v, r) ->
     enough_fuel parse_value s v r) ->
  (forall s acc pairs r, parse_members fuel s acc = Some (pairs, r) ->
     enough_fuel (fun f s => parse_members f s acc) s pairs r) ->
  forall s acc pairs r, parse_members (S fuel) s acc = Some (pairs, r) ->
    enough_fuel (fun f s => parse_members f s acc) s pairs r.
Proof.
  intros IHv IHm s acc pairs r H.
  rewrite parse_members_S in H. unfold enough_fuel. break_match H.
  all: try (match type of H with Some _ = Some _ => injection H as <- <- end).
  all: repeat match goal with
    | E : parse_value _ _ = Some _ |- _ => apply IHv in E; destruct E
    | E : parse_members _ _ _ = Some _ |- _ => apply IHm in E; destruct E
    end.
  all: consumed_facts; skip_ws_bounds.
  all: split; [lia|].
  all: intros [|f'] Hf'; [lia|].
  all: rewrite parse_members_S; repeat (progress (replay; use_fuel)).
  all: reflexivity.
Qed.

Lemma parse_fuel (fuel : nat) :
  (forall s v r, parse_value fuel s = Some (v, r) ->
     enough_fuel parse_value s v r) /\
  (forall s acc v r, parse_elements fuel s acc = Some (v, r) ->
     enough_fuel (fun f s => parse_elements f s acc) s v r) /\
  (forall s acc pairs r, parse_members fuel s acc = Some (pairs, r) ->
     enough_fuel (fun f s => parse_members f s acc) s pairs r).
Proof.
  induction fuel as [|fuel [IHv [IHe IHm]]].
  - repeat split; intros; discriminate.
  - split; [|split].
    + apply parse_value_fuel_step; assumption.
    + apply parse_elements_fuel_step; assumption.
    + apply parse_members_fuel_step; assumption.
Qed.

(** Whatever a run of the decoder reads with some amount of fuel,
    [json_loads] reads with the fuel it takes: its failures are failures of
    the text, never of the bound. *)
Lemma json_loads_fuel (s : str) (fuel : nat) (v : json) (r : str) :
  parse_value fuel (skip_ws s) = Some (v, r) ->
  parse_value (S (length s)) (skip_ws s) = Some (v, r).
Proof.
  intros H. destruct (proj1 (parse_fuel fuel) _ _ _ H) as [_ Hfuel].
  apply Hfuel. pose proof (skip_ws_length s). lia.
Qed.

(** ** save_results_to_file: the whole contract *)

Lemma write_file_read (fs : files) (path content : str) :
  write_file fs path content path = Some content.
Proof. unfold write_file. now rewrite str_eqb_refl. Qed.



(** ** Round trip through extract_json_from_text *)


Lemma contains_nil (s : str) : contains [] s = true.
Proof. destruct s; reflexivity. Qed.















(** * Further properties of the code *)

(** ** calculate_grade *)

Lemma float_ge_monotone (x y : pyfloat) (k : Z) :
  float_le x y -> float_ge x k = true -> float_ge y k = true.
Proof.
  destruct x as [p| | |], y as [q| | |]; simpl; try tauto; try discriminate.
  intros Hle Hp. apply Qle_bool_iff. apply Qle_bool_iff in Hp.
  eapply Qle_trans; eassumption.
Qed.

(** X1. The grade never gets worse when the percentage grows: for
    comparable inputs (everything but NaN, infinities included) a larger
    percentage has a grade at least as high.  NaN, which compares false with
    every threshold, is graded ['F']. *)
Theorem calculate_grade_monotone (x y : pyfloat) :
  (float_le x y ->
   grade_rank (calculate_grade x) <= grade_rank (calculate_grade y)) /\
  calculate_grade NaN = py "F".
Proof.
  split; [|reflexivity]. intros Hle. unfold calculate_grade.
  pose proof (float_ge_monotone x y 90 Hle) as H90.
  pose proof (float_ge_monotone x y 80 Hle) as H80.
  pose proof (float_ge_monotone x y 70 Hle) as H70.
  pose proof (float_ge_monotone x y 60 Hle) as H60.
  pose proof (float_ge_monotone x y 50 Hle) as H50.
  destruct (float_ge x 90); [rewrite (H90 eq_refl); reflexivity|].
  destruct (float_ge x 80);
    [rewrite (H80 eq_refl); destruct (float_ge y 90); cbv; lia|].
  destruct (float_ge x 70);
    [rewrite (H70 eq_refl); destruct (float_ge y 90), (float_ge y 80); cbv; lia|].
  destruct (float_ge x 60);
    [rewrite (H60 eq_refl);
     destruct (float_ge y 90), (float_ge y 80), (float_ge y 70); cbv; lia|].
  destruct (float_ge x 50);
    [rewrite (H50 eq_refl);
     destruct (float_ge y 90), (float_ge y 80), (float_ge y 70), (float_ge y 60);
     cbv; lia|].
  change (grade_rank (py "F")) with 0. lia.
Qed.

Lemma calculate_grade_monotone_witness :
  grade_rank (calculate_grade (Finite (615 # 10)%Q)) <=
  grade_rank (calculate_grade PosInf).
Proof.
  apply (proj1 (calculate_grade_monotone (Finite (615 # 10)%Q) PosInf)).
  exact I.
Defined.

Lemma float_ge_floor (q : Q) (k : Z) :
  float_ge (Finite (inject_Z (Qfloor q))) k = float_ge (Finite q) k.
Proof.
  simpl. destruct (Qle_bool (inject_Z k) q) eqn:E.
  - apply Qle_bool_iff in E. apply Qle_bool_iff.
    apply Qfloor_resp_le in E. rewrite Qfloor_Z in E.
    rewrite <- Zle_Qle. exact E.
  - destruct (Qle_bool (inject_Z k) (inject_Z (Qfloor q))) eqn:E'; [|reflexivity].
    apply Qle_bool_iff in E'.
    assert (H : Qle_bool (inject_Z k) q = true); [|congruence].
    apply Qle_bool_iff. eapply Qle_trans; [exact E'|apply Qfloor_le].
Qed.

(** X2. The thresholds are whole numbers, so the fractional part of a
    percentage never changes its grade: every percentage is graded like its
    floor (89.999 like 89, -0.5 like -1). *)
Theorem calculate_grade_floor (q : Q) :
  calculate_grade (Finite q) = calculate_grade (Finite (inject_Z (Qfloor q))).
Proof.
  unfold calculate_grade. now rewrite !float_ge_floor.
Qed.

(** ** extract_json_from_text on the replies it was written for *)




Lemma brace_guard_split (text : str) :
  negb (find (py "{") text =? -1)%Z &&
    (rfind (py "}") text + 1 >? find (py "{") text)%Z = true ->
  exists a m b, text = a ++ 123%N :: m ++ 125%N :: b /\
                ~ In 123%N a /\ ~ In 125%N b.
Proof.
  intros H. apply brace_guard in H. destruct H as [a0 [m0 [b0 H0]]].
  destruct (split_at_first 123%N text) as [Hno|[a [t [Htext Ha]]]].
  { exfalso. apply Hno. rewrite H0. apply in_or_app. right. now left. }
  destruct (split_at_last 125%N text) as [Hno|[t' [b [Htext' Hb]]]].
  { exfalso. apply Hno. rewrite H0. apply in_or_app. right. right.
    apply in_or_app. right. now left. }
  assert (H1 : length a <= length a0).
  { apply (first_split_le 123%N a t a0 (m0 ++ 125%N :: b0)); [|exact Ha].
    now rewrite <- Htext, <- H0. }
  assert (H2 : length (a0 ++ 123%N :: m0) <= length t').
  { apply (last_split_ge 125%N t' b (a0 ++ 123%N :: m0) b0); [|exact Hb].
    rewrite <- Htext', H0, <- app_assoc. reflexivity. }
  rewrite length_app in H2. cbn [length] in H2.
  assert (Hlen : length a < length t') by lia.
  pose proof Htext as E. rewrite Htext' in E. symmetry in E.
  destruct (between_splits _ _ _ _ _ _ E Hlen) as [m Hm].
  exists a, m, b. rewrite Htext, Hm. auto.
Qed.

Lemma parse_value_brace (fuel : nat) (s : str) (v : json) (r : str) :
  parse_value fuel (123%N :: s) = Some (v, r) -> exists pairs, v = JDict pairs.
Proof.
  destruct fuel as [|fuel]; [discriminate|].
  rewrite parse_value_S. cbn [N.eqb Pos.eqb]. intros H. break_match H;
    injection H as <- _; eauto.
Qed.

Lemma json_loads_brace (s : str) (v : json) :
  json_loads (123%N :: s) = Return v -> exists pairs, v = JDict pairs.
Proof.
  unfold json_loads. rewrite skip_ws_stop by reflexivity.
  destruct (parse_value (S (length (123%N :: s))) (123%N :: s))
    as [[v' r]|] eqn:E; [|discriminate].
  apply parse_value_brace in E. destruct (skip_ws r); [|discriminate].
  intros H. injection H as <-. exact E.
Qed.

(** X4. Without a code fence the extractor can only ever recover an
    object: when the reply does not parse as a whole and holds no fence,
    whatever it returns is a JSON object, never an array or a scalar (the
    candidate it parses starts at an opening brace). *)
Theorem extract_fallback_only_objects (text : str) (e : exn) (v : json) :
  json_loads text = Raise e ->
  contains fence text = false ->
  extract_json_from_text text = Return v ->
  exists pairs, v = JDict pairs.
Proof.
  intros Hloads Hfence Hret.
  destruct (negb (find (py "{") text =? -1)%Z &&
            (rfind (py "}") text + 1 >? find (py "{") text)%Z) eqn:Hguard.
  - destruct (brace_guard_split text Hguard) as [a [m [b [Htext [Ha Hb]]]]].
    rewrite (extract_braces text e a m b Hloads Hfence Htext Ha Hb) in Hret.
    exact (json_loads_brace _ v Hret).
  - exfalso. unfold extract_json_from_text in Hret.
    rewrite Hloads, Hfence in Hret.
    destruct (contains json_fence text) eqn:Ejson.
    { apply contains_prefix_fence in Ejson. congruence. }
    rewrite Hguard in Hret. discriminate Hret.
Qed.

Lemma extract_fallback_only_objects_witness :
  exists pairs,
    JDict [(py "total", JInt 11)] = JDict pairs.
Proof.
  apply (extract_fallback_only_objects
           (py "Marks [4, 7] give {" ++ dq ++ py "total" ++ dq ++ py ": 11}")
           JSONDecodeError (JDict [(py "total", JInt 11)]));
    reflexivity.
Defined.








(** ** extract_pdf_text: how much text a page contributes *)

Lemma str_of_N_nonempty (n : N) : 1 <= length (str_of_N n).
Proof.
  destruct (str_of_N_spec n) as [_ [_ [c [t [-> _]]]]]. cbn [length]. lia.
Qed.

Lemma page_block_length (n : nat) (t : str) :
  17 + length t <= length (page_block n t).
Proof.
  unfold page_block, nl. rewrite !length_app.
  pose proof (str_of_N_nonempty (N.of_nat n)).
  change (length (py "--- Page ")) with 9. change (length (py " ---")) with 4.
  cbn [length]. lia.
Qed.

Lemma pages_text_length (texts : list str) : forall n,
  17 * length texts + list_sum (map (@length N) texts) <=
  length (pages_text n texts).
Proof.
  induction texts as [|t texts IH]; intros n; [cbn; lia|].
  cbn [pages_text map length]. rewrite length_app.
  pose proof (page_block_length n t). specialize (IH (S n)).
  unfold list_sum in *. cbn [fold_right]. lia.
Qed.

(** X7. Every page that is extracted adds its delimiter line and
    newlines, at least 17 characters, to its own text.  So the text returned
    for a PDF whose first [texts] pages were extracted (all of them, or those
    before the failing one) is empty only when no page was extracted: pages
    without any text still make a non-empty result. *)
Theorem extract_pdf_text_length
    (pdfs : str -> pdf_source) (path : str) (texts : list str)
    (tail : list (outcome str)) :
  pdfs path = Pages (map Return texts ++ tail) ->
  tail = [] \/ (exists e rest, tail = Raise e :: rest) ->
  exists text,
    extract_pdf_text pdfs path = Return text /\
    17 * length texts + list_sum (map (@length N) texts) <= length text /\
    (text = [] <-> texts = []).
Proof.
  intros Hsrc Htail. exists (pages_text 1 texts).
  assert (Hret : extract_pdf_text pdfs path = Return (pages_text 1 texts)).
  { rewrite extract_pdf_text_returns, Hsrc. cbn [extract_pdf_body].
    rewrite read_pages_texts.
    destruct Htail as [->|[e [rest ->]]]; reflexivity. }
  pose proof (pages_text_length texts 1) as Hlen.
  split; [exact Hret|]. split; [exact Hlen|]. split.
  - intros E. rewrite E in Hlen. cbn [length] in Hlen.
    destruct texts; [reflexivity|cbn [length] in Hlen; lia].
  - intros ->. reflexivity.
Qed.

Lemma extract_pdf_text_length_witness :
  exists text,
    extract_pdf_text (fun _ => Pages [Return []; Return []]) (py "scan.pdf")
      = Return text /\
    34 <= length text.
Proof.
  destruct (extract_pdf_text_length (fun _ => Pages [Return []; Return []])
              (py "scan.pdf") [[]; []] [] eq_refl (or_introl eq_refl))
    as [text [Hret [Hlen _]]].
  exists text. split; [exact Hret|exact Hlen].
Defined.

(** ** run_grading_system, main and the script *)

Ltac run_cases os cfg :=
  destruct (path_exists os (path_join os (DATASET_PATH cfg) (QUESTION_PAPER cfg)))
    eqn:Hqp;
  [destruct (path_exists os (path_join os (DATASET_PATH cfg) (ANSWER_SHEET cfg)))
     eqn:Has;
   [destruct (path_exists os (path_join os (DATASET_PATH cfg) (TEXTBOOK cfg)))
      eqn:Htb|]|].

(** X8. The reasoning service is only ever called by a script that found
    an API key and all three input files: a trace with a service call implies
    a non-empty key and that each of the three paths exists. *)
Theorem service_call_requires_key_and_files
    (os : os_path) (service : adk) (google_api_key : str) :
  existsb is_service_call (fst (script os service google_api_key)) = true ->
  google_api_key <> [] /\
  path_exists os (path_join os (DATASET_PATH (config google_api_key))
                               (QUESTION_PAPER (config google_api_key))) = true /\
  path_exists os (path_join os (DATASET_PATH (config google_api_key))
                               (ANSWER_SHEET (config google_api_key))) = true /\
  path_exists os (path_join os (DATASET_PATH (config google_api_key))
                               (TEXTBOOK (config google_api_key))) = true.
Proof.
  unfold script. destruct google_api_key as [|c key]; [discriminate|].
  cbn [GEMINI_API_KEY config]. unfold main.
  destruct (run_grading_system os service (config (c :: key)))
    as [trace result] eqn:Erun.
  cbn [fst]. intros Hcall. split; [discriminate|].
  unfold run_grading_system in Erun. cbn [check_files app] in Erun.
  run_cases os (config (c :: key));
    try (repeat split; reflexivity);
    exfalso; injection Erun as <- _; discriminate Hcall.
Qed.

Lemma service_call_requires_key_and_files_witness :
  let os := {| path_join := posix_join; path_exists := fun _ => true;
               path_normpath := fun p => p; path_abspath := fun p => Return p |} in
  py "key" <> [] /\
  path_exists os (py "./exam-data/question_paper.pdf") = true.
Proof.
  intros os.
  destruct (service_call_requires_key_and_files os silent_service (py "key")
              eq_refl) as [Hkey [Hqp _]].
  split; [exact Hkey|exact Hqp].
Defined.



(** X10. [run_grading_system] returns a response only when the service
    produced it for the request naming the three files, after a session was
    created, and that response is never empty: its last event carries at
    least one content part. *)
Theorem returned_response_has_final_report
    (os : os_path) (service : adk) (cfg : Config)
    (response : list (option (list str))) :
  snd (run_grading_system os service cfg) = Return (Some response) ->
  (exists session, create_session service (USER_ID cfg) = Return session) /\
  run_debug service
    (grading_request (path_join os (DATASET_PATH cfg) (QUESTION_PAPER cfg))
                     (path_join os (DATASET_PATH cfg) (ANSWER_SHEET cfg))
                     (path_join os (DATASET_PATH cfg) (TEXTBOOK cfg)))
    = Return response /\
  exists earlier final_text parts,
    response = earlier ++ [Some (final_text :: parts)].
Proof.
  unfold run_grading_system. cbn [check_files app].
  run_cases os cfg; cbn [fst snd]; try discriminate.
  destruct (create_session service (USER_ID cfg)) as [sid|e'] eqn:Esession;
    [|discriminate].
  destruct (run_debug service _) as [response'|e''] eqn:Erun; [|discriminate].
  destruct (final_report response') as [final_text|] eqn:Efinal; [|discriminate].
  cbn [snd]. intros H. injection H as ->.
  split; [exists sid; reflexivity|]. split; [reflexivity|].
  unfold final_report in Efinal.
  destruct (rev response) as [|last earlier] eqn:Erev; [discriminate|].
  destruct last as [[|t parts]|]; try discriminate.
  exists (rev earlier), t, parts.
  rewrite <- (rev_involutive response), Erev. reflexivity.
Qed.

Lemma returned_response_has_final_report_witness :
  exists earlier final_text parts,
    [None; Some [py "Total: 11/20, grade B"]] =
      earlier ++ [Some (final_text :: parts)].
Proof.
  destruct (returned_response_has_final_report os_with_all_files answering_service
              (config (py "key")) [None; Some [py "Total: 11/20, grade B"]] eq_refl)
    as [_ [_ Hlast]].
  exact Hlast.
Defined.

Lemma contains_app_sub (sub : str) : forall a b, contains sub (a ++ sub ++ b) = true.
Proof.
  induction a as [|c a IH]; intros b.
  - cbn [app]. destruct sub as [|c sub]; [apply contains_nil|].
    change ((c :: sub) ++ b) with (c :: (sub ++ b)).
    rewrite contains_cons.
    change (c :: (sub ++ b)) with ((c :: sub) ++ b).
    rewrite (startswith_app (c :: sub) b). reflexivity.
  - change ((c :: a) ++ sub ++ b) with (c :: (a ++ sub ++ b)).
    rewrite contains_cons, IH. apply orb_true_r.
Qed.

(** X11. The request sent to the service names each of the three files:
    whatever the paths are, each one occurs verbatim in the request text. *)
Theorem grading_request_names_the_files (q a t : str) :
  contains q (grading_request q a t) = true /\
  contains a (grading_request q a t) = true /\
  contains t (grading_request q a t) = true.
Proof.
  unfold grading_request. repeat split.
  - apply contains_app_sub.
  - match goal with
    | |- contains a (?h ++ q ++ ?m ++ a ++ ?r) = true =>
        replace (h ++ q ++ m ++ a ++ r) with ((h ++ q ++ m) ++ a ++ r)
          by (rewrite <- !app_assoc; reflexivity)
    end.
    apply contains_app_sub.
  - match goal with
    | |- contains t (?h ++ q ++ ?m ++ a ++ ?n ++ t ++ ?r) = true =>
        replace (h ++ q ++ m ++ a ++ n ++ t ++ r)
          with ((h ++ q ++ m ++ a ++ n) ++ t ++ r)
          by (rewrite <- !app_assoc; reflexivity)
    end.
    apply contains_app_sub.
Qed.

(** X12. The validation loop checks the paths in order and stops at the
    first one that does not exist: the checks it records are those of a
    prefix of the paths; when it answers [True] that prefix is the whole list
    and every path exists, otherwise the last path checked is the missing
    one and all those before it exist. *)
Theorem check_files_stops_at_first_missing
    (os : os_path) (paths : list (str * str)) (trace : list event) :
  exists checked rest,
    map fst paths = checked ++ rest /\
    snd (check_files os paths trace) = trace ++ map EvExists checked /\
    if fst (check_files os paths trace)
    then rest = [] /\ forallb (path_exists os) checked = true
    else exists front missing,
           checked = front ++ [missing] /\
           path_exists os missing = false /\
           forallb (path_exists os) front = true.
Proof.
  revert trace. induction paths as [|[path name] paths IH]; intros trace.
  - exists [], []. cbn. rewrite app_nil_r. auto.
  - cbn [check_files map fst].
    destruct (path_exists os path) eqn:Epath.
    + destruct (IH (trace ++ [EvExists path])) as [checked [rest [Hsplit [Htrace Hend]]]].
      exists (path :: checked), rest. split; [cbn [app]; now rewrite Hsplit|].
      split; [rewrite Htrace, <- app_assoc; reflexivity|].
      destruct (fst (check_files os paths (trace ++ [EvExists path]))).
      * destruct Hend as [-> Hall]. cbn [forallb]. rewrite Epath. auto.
      * destruct Hend as [front [missing [-> [Hmissing Hfront]]]].
        exists (path :: front), missing. cbn [forallb app]. rewrite Epath. auto.
    + exists [path], (map fst paths). cbn [fst snd map app].
      split; [reflexivity|]. split; [reflexivity|].
      exists [], path. auto.
Qed.

(** ** save_results_to_file: what happens to the files *)




(** X14. The saved file is a fixed point of the tool: when the parsed
    input has no float and only scalar strings, saving the content of the
    file just written gives the same message and leaves every file exactly
    as the first call left it. *)
Theorem save_again_changes_nothing
    (os : os_path) (describe : exn -> str) (fs : files)
    (results_json filename : str) (v : json) :
  json_loads results_json = Return v ->
  json_plain v = true ->
  exists content,
    snd (save_results_to_file os describe NoFault fs results_json filename) filename
      = Some content /\
    fst (save_results_to_file os describe NoFault
           (snd (save_results_to_file os describe NoFault fs results_json filename))
           content filename)
      = fst (save_results_to_file os describe NoFault fs results_json filename) /\
    forall p,
      snd (save_results_to_file os describe NoFault
             (snd (save_results_to_file os describe NoFault fs results_json filename))
             content filename) p
        = snd (save_results_to_file os describe NoFault fs results_json filename) p.
Proof.
  intros Hloads Hplain.
  assert (Hback : json_loads (encode (Some 2) 0 v) = Return v).
  { apply json_loads_encode, json_valid_of; [exact Hplain|].
    exact (json_loads_keys_ok _ _ Hloads). }
  exists (encode (Some 2) 0 v).
  unfold save_results_to_file. rewrite Hloads, Hback.
  destruct (path_abspath os filename) as [abs_path|e]; cbn [fst snd];
    (split; [apply write_file_read|]); (split; [reflexivity|]);
    intros p; unfold write_file; destruct (str_eqb p filename); reflexivity.
Qed.

Lemma save_again_changes_nothing_witness :
  exists content,
    snd (save_results_to_file os_with_all_files (fun _ => py "error") NoFault
           notes_only report_json (py "grading_results.json"))
        (py "grading_results.json") = Some content /\
    forall p,
      snd (save_results_to_file os_with_all_files (fun _ => py "error") NoFault
             (snd (save_results_to_file os_with_all_files (fun _ => py "error")
                     NoFault notes_only report_json (py "grading_results.json")))
             content (py "grading_results.json")) p
        = snd (save_results_to_file os_with_all_files (fun _ => py "error") NoFault
                 notes_only report_json (py "grading_results.json")) p.
Proof.
  destruct (save_again_changes_nothing os_with_all_files (fun _ => py "error")
              notes_only report_json (py "grading_results.json") report
              eq_refl eq_refl) as [content [Hfile [_ Hsame]]].
  exists content. split; [exact Hfile|exact Hsame].
Defined.

(** ** The encoder writes ASCII *)

Lemma hexdigit_ascii (n : N) : (n < 16)%N -> is_ascii (hexdigit n) = true.
Proof.
  intros H. unfold is_ascii, hexdigit. destruct (n <? 10)%N; apply N.ltb_lt; lia.
Qed.

Lemma u_escape_ascii (n : N) :
  (n < 65536)%N -> forallb is_ascii (u_escape n) = true.
Proof.
  intros H. unfold u_escape. cbn [forallb].
  rewrite !hexdigit_ascii; [reflexivity| | | |];
    first [apply N.mod_lt; discriminate
          |apply N.Div0.div_lt_upper_bound; exact H].
Qed.

Lemma escape_char_ascii (c : char) : forallb is_ascii (escape_char c) = true.
Proof.
  unfold escape_char.
  repeat match goal with
         | |- context [if ?b then _ else _] => destruct b eqn:?
         end; try reflexivity.
  - match goal with
    | H : (_ && (c <=? 126)%N) = true |- _ =>
        apply andb_true_iff in H; destruct H as [_ H]; apply N.leb_le in H
    end.
    cbn [forallb]. rewrite andb_true_r. apply N.ltb_lt. lia.
  - apply u_escape_ascii. now apply N.ltb_lt.
  - rewrite forallb_app. apply andb_true_iff. split; apply u_escape_ascii.
    + pose proof (N.mod_lt ((c - 65536) / 1024) 1024). lia.
    + pose proof (N.mod_lt (c - 65536) 1024). lia.
Qed.

Lemma encode_str_ascii (s : str) : forallb is_ascii (encode_str s) = true.
Proof.
  unfold encode_str. cbn [forallb]. rewrite forallb_app.
  replace (forallb is_ascii (flat_map escape_char s)) with true; [reflexivity|].
  symmetry. induction s as [|c s IH]; [reflexivity|].
  cbn [flat_map]. now rewrite forallb_app, escape_char_ascii, IH.
Qed.

Lemma str_of_Z_ascii (z : Z) : forallb is_ascii (str_of_Z z) = true.
Proof.
  assert (G : forall n, forallb is_ascii (str_of_N n) = true).
  { intros n. destruct (str_of_N_spec n) as [Hdigits _].
    apply forallb_forall. intros c Hc.
    rewrite forallb_forall in Hdigits. apply Hdigits, is_digit_range in Hc.
    apply N.ltb_lt. lia. }
  destruct z; unfold str_of_Z; [apply G|apply G|].
  cbn [forallb]. now rewrite G.
Qed.

Lemma join_forallb (P : char -> bool) (sep : str) (l : list str) :
  forallb P sep = true ->
  Forall (fun x => forallb P x = true) l ->
  forallb P (join sep l) = true.
Proof.
  intros Hsep Hl. destruct Hl as [|x l Hx Hl]; [reflexivity|].
  rewrite join_cons, forallb_app, Hx. cbn [andb].
  induction Hl as [|y l Hy Hl IH]; [reflexivity|].
  cbn [flat_map]. now rewrite !forallb_app, Hsep, Hy, IH.
Qed.

Lemma newline_indent_ascii (indent : option nat) (level : nat) :
  forallb is_ascii (newline_indent indent level) = true.
Proof.
  destruct indent as [n|]; [|reflexivity]. cbn [newline_indent forallb].
  apply andb_true_iff. split; [reflexivity|].
  apply forallb_forall. intros c Hc. apply repeat_spec in Hc. now subst c.
Qed.

Lemma item_separator_ascii (indent : option nat) (level : nat) :
  forallb is_ascii (item_separator indent level) = true.
Proof.
  destruct indent as [n|]; [|reflexivity].
  cbn [item_separator forallb].
  now rewrite (newline_indent_ascii (Some n) level).
Qed.

Lemma encode_ascii (v : json) :
  float_free v = true ->
  forall indent level, forallb is_ascii (encode indent level v) = true.
Proof.
  induction v as [|b|z|literal|s|items IH|pairs IH] using json_nested_ind;
    intros Hv indent level.
  - reflexivity.
  - destruct b; reflexivity.
  - apply str_of_Z_ascii.
  - discriminate Hv.
  - apply encode_str_ascii.
  - destruct items as [|x items]; [reflexivity|].
    cbn [encode]. rewrite !forallb_app.
    rewrite !newline_indent_ascii, join_forallb; [reflexivity| |].
    + apply item_separator_ascii.
    + apply Forall_forall. intros t Ht. apply in_map_iff in Ht.
      destruct Ht as [y [<- Hy]].
      rewrite Forall_forall in IH. apply IH; [exact Hy|].
      cbn [float_free] in Hv. rewrite forallb_forall in Hv. now apply Hv.
  - destruct pairs as [|kv pairs]; [reflexivity|].
    cbn [encode]. rewrite !forallb_app.
    rewrite !newline_indent_ascii, join_forallb; [reflexivity| |].
    + apply item_separator_ascii.
    + apply Forall_forall. intros t Ht. apply in_map_iff in Ht.
      destruct Ht as [y [<- Hy]].
      rewrite !forallb_app, encode_str_ascii. cbn [andb].
      rewrite Forall_forall in IH. rewrite (IH y Hy); [reflexivity|].
      cbn [float_free] in Hv. rewrite forallb_forall in Hv. now apply Hv.
Qed.

Lemma forallb_firstn {A : Type} (f : A -> bool) (n : nat) (l : list A) :
  forallb f l = true -> forallb f (firstn n l) = true.
Proof.
  intros H. rewrite <- (firstn_skipn n l), forallb_app in H.
  now apply andb_true_iff in H.
Qed.

(** X15. What the tool writes is 7-bit ASCII: when the parsed input holds
    no float, every character the call leaves in a file it wrote (the whole
    serialization, or the part written before a write failed) is below 128,
    non-ASCII characters of the strings being written as [\u] escapes. *)
Theorem saved_file_is_ascii
    (os : os_path) (describe : exn -> str) (fault : write_fault) (fs : files)
    (results_json filename : str) (v : json) :
  json_loads results_json = Return v ->
  float_free v = true ->
  (forall e, fault <> OpenFails e) ->
  exists content,
    snd (save_results_to_file os describe fault fs results_json filename) filename
      = Some content /\
    forallb is_ascii content = true.
Proof.
  intros Hloads Hv Hfault. unfold save_results_to_file. rewrite Hloads.
  destruct fault as [|e|n e].
  - exists (encode (Some 2) 0 v). split; [|now apply encode_ascii].
    destruct (path_abspath os filename); apply write_file_read.
  - now destruct (Hfault e).
  - exists (firstn n (encode (Some 2) 0 v)). split; [apply write_file_read|].
    apply forallb_firstn. now apply encode_ascii.
Qed.

Lemma saved_file_is_ascii_witness :
  exists content,
    snd (save_results_to_file os_with_all_files (fun _ => py "error") NoFault
           no_files (py "[" ++ dq ++ [233%N; 128512%N] ++ dq ++ py "]")
           (py "grading_results.json"))
        (py "grading_results.json") = Some content /\
    forallb is_ascii content = true.
Proof.
  apply (saved_file_is_ascii os_with_all_files (fun _ => py "error") NoFault
           no_files (py "[" ++ dq ++ [233%N; 128512%N] ++ dq ++ py "]")
           (py "grading_results.json") (JList [JStr [233%N; 128512%N]])).
  - reflexivity.
  - reflexivity.
  - intros e H. discriminate H.
Defined.

(** ** extract_json_from_text on a reply that was cut short *)




(** ** extract_json_from_text when a closing brace follows the object *)






(** ** run_grading_system: the order of its effects *)

(** X18. A run performs its effects in one fixed order and never repeats
    one: whatever the files and the service do, its trace is a prefix of
    the three existence checks, the creation of the runner, the creation of
    the session and a single [run_debug] call. *)
Theorem run_trace_is_prefix (os : os_path) (service : adk) (cfg : Config) :
  exists rest,
    [EvExists (path_join os (DATASET_PATH cfg) (QUESTION_PAPER cfg));
     EvExists (path_join os (DATASET_PATH cfg) (ANSWER_SHEET cfg));
     EvExists (path_join os (DATASET_PATH cfg) (TEXTBOOK cfg));
     EvNewRunner;
     EvCreateSession (USER_ID cfg);
     EvRunDebug
       (grading_request (path_join os (DATASET_PATH cfg) (QUESTION_PAPER cfg))
                        (path_join os (DATASET_PATH cfg) (ANSWER_SHEET cfg))
                        (path_join os (DATASET_PATH cfg) (TEXTBOOK cfg)))]
    = fst (run_grading_system os service cfg) ++ rest.
Proof.
  unfold run_grading_system. cbn [check_files app].
  run_cases os cfg; cbn [fst app];
    try (eexists; reflexivity).
  destruct (create_session service (USER_ID cfg)) as [sid|e'].
  - destruct (run_debug service _) as [response|e''].
    + destruct (final_report response); exists []; reflexivity.
    + exists []. reflexivity.
  - eexists. reflexivity.
Qed.
